(** * TodoListDetail: the reconciliation logic of the item view

    A shallow embedding of [components/TodoListDetail.tsx] (state hooks,
    the fetch/poll driver, the SignalR progress handler and the four
    optimistic item handlers) together with the properties of its
    optimistic updates, roll-backs and bulk "complete all" operation.

    Modelling choices:
    - Every asynchronous handler is split at its [await]: the part that
      runs synchronously when the handler is called, and one continuation
      per outcome of the awaited remote call.  What the handler keeps in
      its closure across the [await] is recorded in a [Pending] value and
      handed to the continuation.
    - A handler is called from the render of the current state, so the
      state variables it reads from its closure are those of the state it
      is called in.  After the [await] the closure is stale: a plain
      [setItems(v)] writes a value computed from the captured variables,
      a functional updater [setItems(prev => ...)] reads the state that
      is current when the continuation runs.
    - [App] unmounts the component whenever the mode or the selected list
      changes, so [listId] and [mode] are constant for a mounted
      component.
    - [fetchItems] is re-created when [isCompletingAll] changes, and the
      fetch effect depends on it: the render after a handler that flipped
      the flag runs the effect again ([commit]).  [step] lets the effect
      run at any time and is used for the invariants; [transition] runs
      it only where a render forces it and is used where the schedule
      matters.
    - The hub connection object itself is not modelled, only what its
      callbacks do to the state. *)

From Stdlib Require Import ZArith String Ascii Bool DecimalString DecimalPos DecimalZ.
From stdpp Require Import base list relations.

Local Open Scope string_scope.
Local Open Scope Z_scope.

(** ** JavaScript strings and numbers

    A [string] stands for a JavaScript string whose code units are below
    256; an [ascii] is one such code unit. *)

(** [WhiteSpace] and [LineTerminator] code units below 256, as stripped by
    [String.prototype.trim]: TAB, LF, VT, FF, CR, SP and NBSP. *)
Definition isWhiteSpace (c : ascii) : bool :=
  let n := nat_of_ascii c in
  (Nat.eqb n 9 || Nat.eqb n 10 || Nat.eqb n 11 || Nat.eqb n 12
   || Nat.eqb n 13 || Nat.eqb n 32 || Nat.eqb n 160)%bool.

Fixpoint trimStart (s : string) : string :=
  match s with
  | EmptyString => EmptyString
  | String c r => if isWhiteSpace c then trimStart r else s
  end.

Fixpoint trimEnd (s : string) : string :=
  match s with
  | EmptyString => EmptyString
  | String c r =>
      match trimEnd r with
      | EmptyString => if isWhiteSpace c then EmptyString else String c EmptyString
      | r' => String c r'
      end
  end.

Definition trim (s : string) : string := trimEnd (trimStart s).

(** Truthiness of a string: the empty string is falsy. *)
Definition truthy (s : string) : bool :=
  match s with EmptyString => false | _ => true end.

(** The safe integers: the integers a double holds exactly,
    [-(2^53 - 1) .. 2^53 - 1] ([Number.isSafeInteger]). *)
Definition MAX_SAFE_INTEGER : Z := 9007199254740991.

Definition isSafeInteger (z : Z) : bool :=
  (- MAX_SAFE_INTEGER <=? z) && (z <=? MAX_SAFE_INTEGER).

(** A number, as far as this component needs them: [NaN], a safe integer
    [Num z], or [Inexact], a number beyond the safe integers, where a
    double rounds; the value of the latter is not modelled. *)
Inductive JsNumber := NaN | Num (z : Z) | Inexact.

(** [Number.prototype.toString] on a safe integer: plain decimal digits,
    with a minus sign when negative.  Beyond the safe integers the digits
    JavaScript prints are those of the rounded double (and exponent
    notation from 1e21 on), which this function does not follow: it is to
    be read at safe integers only, such as list ids, counts and the
    readings of [Date.now()]. *)
Definition toString (z : Z) : string := NilZero.string_of_int (Z.to_int z).

Definition digitValue (c : ascii) : option Z :=
  let n := Z.of_nat (nat_of_ascii c) in
  if (48 <=? n) && (n <=? 57) then Some (n - 48)
  else if (97 <=? n) && (n <=? 102) then Some (n - 87)
  else if (65 <=? n) && (n <=? 70) then Some (n - 55)
  else None.

(** The digits of the longest prefix of [s] in base [radix], folded into
    [acc]; [seen] records whether any digit was read. *)
Fixpoint parseDigits (radix : Z) (s : string) (acc : Z) (seen : bool) : option Z :=
  match s with
  | EmptyString => if seen then Some acc else None
  | String c r =>
      match digitValue c with
      | Some d =>
          if d <? radix then parseDigits radix r (acc * radix + d) true
          else if seen then Some acc else None
      | None => if seen then Some acc else None
      end
  end.

(** [parseInt(s)] without a radix argument: leading white space, an
    optional sign, an optional [0x]/[0X] prefix, then digits.  A value
    beyond the safe integers comes back rounded: [Inexact].  The sign of
    zero is not kept. *)
Definition parseInt (s : string) : JsNumber :=
  let s1 := trimStart s in
  let '(sign, s2) :=
    match s1 with
    | String "-" r => (-1, r)
    | String "+" r => (1, r)
    | _ => (1, s1)
    end in
  let '(radix, s3) :=
    match s2 with
    | String "0" (String "x" r) | String "0" (String "X" r) => (16, r)
    | _ => (10, s2)
    end in
  match parseDigits radix s3 0 false with
  | Some n => if isSafeInteger (sign * n) then Num (sign * n) else Inexact
  | None => NaN
  end.

(** ** Data model ([types/index.ts]) *)

(** [TodoListItem].  The object [handleAddItem] builds carries one more
    property, [listId: parseInt(listId)], kept here as [numListId]; items
    that come from the server do not have it. *)
Record TodoListItem := mkItem {
  id : string;
  todoListId : string;
  description : string;
  completed : bool;
  numListId : option JsNumber
}.

(** [{ ...i, completed: v }] and [{ ...i, description: d }]. *)
Definition withCompleted (i : TodoListItem) (v : bool) : TodoListItem :=
  {| id := id i; todoListId := todoListId i; description := description i;
     completed := v; numListId := numListId i |}.

Definition withDescription (i : TodoListItem) (d : string) : TodoListItem :=
  {| id := id i; todoListId := todoListId i; description := d;
     completed := completed i; numListId := numListId i |}.

(** ** Array methods used by the component *)

(** [a.findIndex(f)]; [None] stands for the result [-1]. *)
Fixpoint findIndex {A} (f : A -> bool) (a : list A) : option nat :=
  match a with
  | [] => None
  | x :: r => if f x then Some 0%nat else S <$> findIndex f r
  end.

(** [a.find(f)]; [None] stands for [undefined]. *)
Fixpoint find {A} (f : A -> bool) (a : list A) : option A :=
  match a with
  | [] => None
  | x :: r => if f x then Some x else find f r
  end.

(** [a.every(f)]. *)
Definition every {A} (f : A -> bool) (a : list A) : bool := forallb f a.

(** [===] on strings. *)
Definition seq (a b : string) : bool := String.eqb a b.

Arguments seq : simpl never.

(** ** Props, state hooks and refs *)

Inductive Mode := vanilla | websocket.

Record Props := mkProps { listId : string; mode : Mode }.

Definition isVanilla (p : Props) : bool :=
  match mode p with vanilla => true | websocket => false end.

Module Progress.
(** The object held by [completionProgress]. *)
Record t := mk { completed : Z; total : Z }.
End Progress.

(** Handle of an interval timer ([NodeJS.Timeout]). *)
Definition Timeout := nat.

(** The [useState] cells, the [pollingIntervalRef] ref and the interval
    timers of the runtime ([intervals] lists the handles [setInterval] has
    handed out and [clearInterval] has not yet cancelled). *)
Record State := mkState {
  items : list TodoListItem;
  newItemDesc : string;
  loading : bool;
  error : option string;
  isMocking : bool;
  isCompletingAll : bool;
  editingItemId : option string;
  editingItemDesc : string;
  completionProgress : option Progress.t;
  pollingIntervalRef : option Timeout;
  intervals : list Timeout;
  nextTimeout : Timeout
}.

(** The state of a freshly mounted component. *)
Definition initialState : State :=
  {| items := []; newItemDesc := ""; loading := true; error := None;
     isMocking := false; isCompletingAll := false; editingItemId := None;
     editingItemDesc := ""; completionProgress := None;
     pollingIntervalRef := None; intervals := []; nextTimeout := 0%nat |}.

Definition setItems (v : list TodoListItem) (s : State) : State :=
  mkState v (newItemDesc s) (loading s) (error s) (isMocking s)
    (isCompletingAll s) (editingItemId s) (editingItemDesc s)
    (completionProgress s) (pollingIntervalRef s) (intervals s) (nextTimeout s).

Definition setNewItemDesc (v : string) (s : State) : State :=
  mkState (items s) v (loading s) (error s) (isMocking s)
    (isCompletingAll s) (editingItemId s) (editingItemDesc s)
    (completionProgress s) (pollingIntervalRef s) (intervals s) (nextTimeout s).

Definition setLoading (v : bool) (s : State) : State :=
  mkState (items s) (newItemDesc s) v (error s) (isMocking s)
    (isCompletingAll s) (editingItemId s) (editingItemDesc s)
    (completionProgress s) (pollingIntervalRef s) (intervals s) (nextTimeout s).

Definition setError (v : option string) (s : State) : State :=
  mkState (items s) (newItemDesc s) (loading s) v (isMocking s)
    (isCompletingAll s) (editingItemId s) (editingItemDesc s)
    (completionProgress s) (pollingIntervalRef s) (intervals s) (nextTimeout s).

Definition setIsMocking (v : bool) (s : State) : State :=
  mkState (items s) (newItemDesc s) (loading s) (error s) v
    (isCompletingAll s) (editingItemId s) (editingItemDesc s)
    (completionProgress s) (pollingIntervalRef s) (intervals s) (nextTimeout s).

Definition setIsCompletingAll (v : bool) (s : State) : State :=
  mkState (items s) (newItemDesc s) (loading s) (error s) (isMocking s)
    v (editingItemId s) (editingItemDesc s)
    (completionProgress s) (pollingIntervalRef s) (intervals s) (nextTimeout s).

Definition setEditingItemId (v : option string) (s : State) : State :=
  mkState (items s) (newItemDesc s) (loading s) (error s) (isMocking s)
    (isCompletingAll s) v (editingItemDesc s)
    (completionProgress s) (pollingIntervalRef s) (intervals s) (nextTimeout s).

Definition setEditingItemDesc (v : string) (s : State) : State :=
  mkState (items s) (newItemDesc s) (loading s) (error s) (isMocking s)
    (isCompletingAll s) (editingItemId s) v
    (completionProgress s) (pollingIntervalRef s) (intervals s) (nextTimeout s).

Definition setCompletionProgress (v : option Progress.t) (s : State) : State :=
  mkState (items s) (newItemDesc s) (loading s) (error s) (isMocking s)
    (isCompletingAll s) (editingItemId s) (editingItemDesc s)
    v (pollingIntervalRef s) (intervals s) (nextTimeout s).

Definition setPollingIntervalRef (v : option Timeout) (s : State) : State :=
  mkState (items s) (newItemDesc s) (loading s) (error s) (isMocking s)
    (isCompletingAll s) (editingItemId s) (editingItemDesc s)
    (completionProgress s) v (intervals s) (nextTimeout s).

(** [setInterval(cb, 2000)]: a fresh handle, now active. *)
Definition setInterval (s : State) : Timeout * State :=
  let t := nextTimeout s in
  (t, mkState (items s) (newItemDesc s) (loading s) (error s) (isMocking s)
        (isCompletingAll s) (editingItemId s) (editingItemDesc s)
        (completionProgress s) (pollingIntervalRef s)
        (t :: intervals s) (S t)).

(** [clearInterval(t)]. *)
Definition clearInterval (t : Timeout) (s : State) : State :=
  mkState (items s) (newItemDesc s) (loading s) (error s) (isMocking s)
    (isCompletingAll s) (editingItemId s) (editingItemDesc s)
    (completionProgress s) (pollingIntervalRef s)
    (List.filter (fun u => negb (Nat.eqb u t)) (intervals s)) (nextTimeout s).

(** ** Remote calls and suspended handlers *)

(** The body of a [PUT] on an item: [{ description }] or [{ completed }]. *)
Inductive UpdateData := dataDescription (d : string) | dataCompleted (c : bool).

(** The calls of [services/api.ts] the component issues. *)
Inductive Request :=
| getTodoListItems (listId : string)
| createTodoListItem (listId description : string)
| updateTodoListItem (listId itemId : string) (data : UpdateData)
| deleteTodoListItem (listId itemId : string)
| createMockData (listId : string)
| completeAllItems (listId : string)
| completeAllItemsSignalR (listId : string).

(** Who called [fetchItems]: the fetch effect and [handleMockData] call
    [fetchItems()], the interval callback calls [fetchItems(true)]. *)
Inductive FetchCaller := byEffect | byMock | byPolling.

Definition calledDuringPolling (c : FetchCaller) : bool :=
  match c with byPolling => true | _ => false end.

(** A handler suspended at its [await], with what its closure captured. *)
Inductive Pending :=
| AwaitFetch (caller : FetchCaller)
| AwaitAdd (tempId originalDesc : string)
| AwaitToggle (itemId : string) (originalCompleted : bool)
| AwaitDelete (itemId : string) (originalItems : list TodoListItem)
| AwaitUpdateDesc (itemId : string) (closureItems : list TodoListItem)
    (newDesc originalDesc : string)
| AwaitMock
| AwaitCompleteAll.

(** The remote call a suspended handler is waiting for. *)
Definition request_of (p : Props) (pd : Pending) : Request :=
  match pd with
  | AwaitFetch _ => getTodoListItems (listId p)
  | AwaitAdd _ originalDesc => createTodoListItem (listId p) originalDesc
  | AwaitToggle itemId originalCompleted =>
      updateTodoListItem (listId p) itemId (dataCompleted (negb originalCompleted))
  | AwaitDelete itemId _ => deleteTodoListItem (listId p) itemId
  | AwaitUpdateDesc itemId _ newDesc _ =>
      updateTodoListItem (listId p) itemId (dataDescription newDesc)
  | AwaitMock => createMockData (listId p)
  | AwaitCompleteAll =>
      match mode p with
      | websocket => completeAllItemsSignalR (listId p)
      | vanilla => completeAllItems (listId p)
      end
  end.

(** ** The poll driver: [stopPolling] and [fetchItems] *)

Definition stopPolling (s : State) : State :=
  match pollingIntervalRef s with
  | Some t => setPollingIntervalRef None (clearInterval t s)
  | None => s
  end.

(** [fetchItems] up to its [await].  [closureCompleting] is the
    [isCompletingAll] the callback was created with. *)
Definition fetchItems (p : Props) (closureCompleting : bool)
    (caller : FetchCaller) (s : State) : State * option Pending :=
  let cdp := calledDuringPolling caller in
  let s := if negb cdp && negb closureCompleting then setLoading true s else s in
  let s := if negb cdp then setError None s else s in
  let s := if negb cdp && isVanilla p then stopPolling s else s in
  (s, Some (AwaitFetch caller)).

(** The [try] branch after [getTodoListItems] resolved with [data], then
    the [finally] block. *)
Definition fetchItems_ok (p : Props) (cdp : bool) (data : list TodoListItem)
    (s : State) : State :=
  let s := setItems data s in
  let s :=
    if isVanilla p && cdp && (0 <? Z.of_nat (length data))
       && every completed data
    then setIsCompletingAll false (stopPolling s)
    else s in
  let s := setError None s in
  if negb cdp then setLoading false s else s.

Definition fetchErrorMsg (cdp : bool) : string :=
  "Failed to fetch list items" ++ (if cdp then " during polling" else "") ++ ".".

(** The [catch] branch, then the [finally] block.  When
    [calledDuringPolling] is false the error is thrown again to the caller. *)
Definition fetchItems_fail (p : Props) (cdp : bool) (s : State) : State :=
  let s := setError (Some (fetchErrorMsg cdp)) s in
  let s :=
    if cdp || isVanilla p
    then setCompletionProgress None (setIsCompletingAll false (stopPolling s))
    else s in
  if negb cdp then setLoading false s else s.

(** The fetch effect re-running: its clean-up, then [fetchItems()]. *)
Definition fetchEffect (p : Props) (s : State) : State * option Pending :=
  let s := if isVanilla p then stopPolling s else s in
  fetchItems p (isCompletingAll s) byEffect s.

(** ** The push driver: the [ReceiveTodoCompletionUpdate] handler *)

(** The first argument of the event: [number | string | null | undefined]. *)
Inductive ListIdArg :=
| lidNumber (n : Z) | lidString (v : string) | lidNull | lidUndefined.

(** [updatedListId?.toString().trim()]; [None] stands for [undefined]. *)
Definition backendListIdStr (u : ListIdArg) : option string :=
  match u with
  | lidNumber n => Some (trim (toString n))
  | lidString v => Some (trim v)
  | lidNull | lidUndefined => None
  end.

(** [backendListIdStr && currentListIdStr && backendListIdStr === currentListIdStr]. *)
Definition listIdMatches (p : Props) (u : ListIdArg) : bool :=
  match backendListIdStr u with
  | Some b =>
      let c := trim (listId p) in
      truthy b && truthy c && seq b c
  | None => false
  end.

(** The updater passed to [setItems] by the handler. *)
Definition markCompleted (justCompletedItemId : string)
    (currentItems : list TodoListItem) : list TodoListItem :=
  match findIndex (fun item => seq (id item) justCompletedItemId) currentItems with
  | None => currentItems
  | Some index =>
      match currentItems !! index with
      | Some it =>
          if completed it then currentItems
          else <[index := withCompleted it true]> currentItems
      | None => currentItems
      end
  end.

(** [justCompletedItemId: string | null | undefined], with [None] for the
    last two. *)
Definition ReceiveTodoCompletionUpdate (p : Props) (updatedListId : ListIdArg)
    (justCompletedItemId : option string) (completedCount totalCount : Z)
    (s : State) : State :=
  if listIdMatches p updatedListId then
    let s := setCompletionProgress
               (Some (Progress.mk completedCount totalCount)) s in
    let s :=
      match justCompletedItemId with
      | Some j => if truthy j then setItems (markCompleted j (items s)) s else s
      | None => s
      end in
    if (completedCount =? totalCount) && (0 <? totalCount)
    then setCompletionProgress None (setIsCompletingAll false s)
    else s
  else s.

(** The connection callbacks that write a status. *)
Inductive ConnectionEvent :=
| connClosed | connReconnecting | connReconnected
| connStarted | connStartFailed | connJoinFailed.

Definition onConnection (e : ConnectionEvent) (s : State) : State :=
  match e with
  | connClosed =>
      setError (Some "Real-time connection lost. Attempting to reconnect...") s
  | connReconnecting =>
      setError (Some "Real-time connection interrupted. Attempting to reconnect...") s
  | connReconnected | connStarted => setError None s
  | connStartFailed => setError (Some "Failed to connect for real-time updates.") s
  | connJoinFailed =>
      setError (Some "Failed to subscribe to real-time updates for this list.") s
  end.

(** ** The optimistic item handlers *)

(** [editingItemId === itemId], with [None] for [null]. *)
Definition isEditing (s : State) (itemId : string) : bool :=
  match editingItemId s with
  | Some e => seq e itemId
  | None => false
  end.

Definition tempIdAt (now : Z) : string := "temp-" ++ toString now.

Definition newItemOptimistic (p : Props) (tempId desc : string) : TodoListItem :=
  {| id := tempId; description := desc; completed := false;
     numListId := Some (parseInt (listId p)); todoListId := listId p |}.

(** [handleAddItem]; [now] is the reading of [Date.now()]. *)
Definition handleAddItem (p : Props) (now : Z) (s : State) : State * option Pending :=
  if negb (truthy (trim (newItemDesc s))) || isCompletingAll s || isMocking s
  then (s, None)
  else
    let originalDesc := newItemDesc s in
    let tempId := tempIdAt now in
    let s := setError None s in
    let s := setItems (items s ++ [newItemOptimistic p tempId originalDesc]) s in
    let s := setNewItemDesc "" s in
    (s, Some (AwaitAdd tempId originalDesc)).

Definition handleAddItem_ok (tempId : string) (newItem : TodoListItem)
    (s : State) : State :=
  setItems
    (List.map (fun item => if seq (id item) tempId then newItem else item) (items s))
    s.

Definition handleAddItem_fail (tempId originalDesc : string) (s : State) : State :=
  let s := setError (Some "Failed to add item.") s in
  let s := setItems (List.filter (fun item => negb (seq (id item) tempId)) (items s)) s in
  setNewItemDesc originalDesc s.

(** The two updaters of [handleToggleComplete]. *)
Definition toggleItems (itemId : string) (prevItems : list TodoListItem) :=
  List.map (fun i => if seq (id i) itemId then withCompleted i (negb (completed i)) else i)
    prevItems.

Definition untoggleItems (itemId : string) (originalCompleted : bool)
    (prevItems : list TodoListItem) :=
  List.map (fun i => if seq (id i) itemId then withCompleted i originalCompleted else i)
    prevItems.

Definition handleToggleComplete (item : TodoListItem) (s : State)
    : State * option Pending :=
  if isCompletingAll s || isMocking s || isEditing s (id item) then (s, None)
  else
    let s := setError None s in
    let s := setItems (toggleItems (id item) (items s)) s in
    (s, Some (AwaitToggle (id item) (completed item))).

Definition handleToggleComplete_fail (itemId : string) (originalCompleted : bool)
    (s : State) : State :=
  let s := setError (Some "Failed to update item status.") s in
  setItems (untoggleItems itemId originalCompleted (items s)) s.

Definition handleDeleteItem (itemId : string) (s : State) : State * option Pending :=
  if isCompletingAll s || isMocking s || isEditing s itemId then (s, None)
  else
    let originalItems := items s in
    let s := setError None s in
    let s := setItems (List.filter (fun item => negb (seq (id item) itemId)) originalItems) s in
    (s, Some (AwaitDelete itemId originalItems)).

Definition handleDeleteItem_fail (originalItems : list TodoListItem) (s : State) : State :=
  setItems originalItems (setError (Some "Failed to delete item.") s).

Definition startEditing (item : TodoListItem) (s : State) : State :=
  if isCompletingAll s || isMocking s || completed item then s
  else setEditingItemDesc (description item) (setEditingItemId (Some (id item)) s).

Definition cancelEditing (s : State) : State :=
  setEditingItemDesc "" (setEditingItemId None s).

(** [items.map(i => i.id === itemId ? { ...i, description: d } : i)]. *)
Definition describeItems (itemId d : string) (its : list TodoListItem) :=
  List.map (fun i => if seq (id i) itemId then withDescription i d else i) its.

Definition handleUpdateItemDesc (itemId : string) (s : State) : State * option Pending :=
  match find (fun i => seq (id i) itemId) (items s) with
  | None => (cancelEditing s, None)
  | Some currentItem =>
      if isCompletingAll s || isMocking s
         || negb (truthy (trim (editingItemDesc s)))
         || seq (editingItemDesc s) (description currentItem)
      then (cancelEditing s, None)
      else
        let closureItems := items s in
        let newDesc := editingItemDesc s in
        let originalDesc := description currentItem in
        let s := setError None s in
        let s := setItems (describeItems itemId newDesc closureItems) s in
        let s := cancelEditing s in
        (s, Some (AwaitUpdateDesc itemId closureItems newDesc originalDesc))
  end.

Definition handleUpdateItemDesc_fail (itemId : string)
    (closureItems : list TodoListItem) (originalDesc : string) (s : State) : State :=
  let s := setError (Some "Failed to update item description.") s in
  setItems (describeItems itemId originalDesc closureItems) s.

(** ** Mock data and the bulk operation *)

Definition handleMockData (p : Props) (s : State) : State * option Pending :=
  if isMocking s || isCompletingAll s then (s, None)
  else
    let s := setIsMocking true s in
    let s := setError None s in
    let s := if isVanilla p then stopPolling s else s in
    (s, Some AwaitMock).

(** [createMockData] resolved: the handler goes on to [await fetchItems()],
    with the [fetchItems] of its own render, where [isCompletingAll] was
    false. *)
Definition handleMockData_ok (p : Props) (s : State) : State * option Pending :=
  fetchItems p false byMock s.

(** The [catch] and [finally] blocks of [handleMockData]. *)
Definition handleMockData_fail (s : State) : State :=
  setIsMocking false (setError (Some "Failed to generate mock data.") s).

Definition handleCompleteAll (p : Props) (s : State) : State * option Pending :=
  if isCompletingAll s || isMocking s then (s, None)
  else
    let itemsToComplete := List.filter (fun item => negb (completed item)) (items s) in
    if Nat.eqb (length itemsToComplete) 0 then (s, None)
    else
      let totalItems := Z.of_nat (length (items s)) in
      let s := setError None s in
      let s := setIsCompletingAll true s in
      match mode p with
      | websocket =>
          let currentlyCompleted := totalItems - Z.of_nat (length itemsToComplete) in
          let s := setCompletionProgress
                     (Some (Progress.mk currentlyCompleted totalItems)) s in
          (s, Some AwaitCompleteAll)
      | vanilla => (stopPolling s, Some AwaitCompleteAll)
      end.

(** The trigger request was accepted. *)
Definition handleCompleteAll_ok (p : Props) (s : State) : State :=
  match mode p with
  | websocket => s
  | vanilla =>
      match pollingIntervalRef s with
      | None => let '(t, s) := setInterval s in setPollingIntervalRef (Some t) s
      | Some _ => s
      end
  end.

(** The trigger request failed. *)
Definition handleCompleteAll_fail (p : Props) (s : State) : State :=
  match mode p with
  | websocket =>
      let s := setError (Some "Failed to initiate complete all items (websocket mode).") s in
      setCompletionProgress None (setIsCompletingAll false s)
  | vanilla =>
      let s := setError (Some "Failed to initiate complete all items (vanilla mode).") s in
      setIsCompletingAll false s
  end.

(** ** The component as a transition system *)

(** What a suspended handler receives when its remote call resolves. *)
Definition Payload (pd : Pending) : Type :=
  match pd with
  | AwaitFetch _ => list TodoListItem
  | AwaitAdd _ _ => TodoListItem
  | _ => unit
  end.

(** The continuation of a suspended handler: [Some v] when the awaited call
    resolved with [v], [None] when it was rejected.  The result carries the
    next [await] of the same handler, if there is one. *)
Definition resume (p : Props) (pd : Pending)
    : option (Payload pd) -> State -> State * option Pending :=
  match pd with
  | AwaitFetch caller => fun r s =>
      let cdp := calledDuringPolling caller in
      match r with
      | Some data =>
          let s := fetchItems_ok p cdp data s in
          (match caller with byMock => setIsMocking false s | _ => s end, None)
      | None =>
          let s := fetchItems_fail p cdp s in
          (match caller with byMock => handleMockData_fail s | _ => s end, None)
      end
  | AwaitAdd tempId originalDesc => fun r s =>
      match r with
      | Some newItem => (handleAddItem_ok tempId newItem s, None)
      | None => (handleAddItem_fail tempId originalDesc s, None)
      end
  | AwaitToggle itemId originalCompleted => fun r s =>
      match r with
      | Some _ => (s, None)
      | None => (handleToggleComplete_fail itemId originalCompleted s, None)
      end
  | AwaitDelete _ originalItems => fun r s =>
      match r with
      | Some _ => (s, None)
      | None => (handleDeleteItem_fail originalItems s, None)
      end
  | AwaitUpdateDesc itemId closureItems _ originalDesc => fun r s =>
      match r with
      | Some _ => (s, None)
      | None => (handleUpdateItemDesc_fail itemId closureItems originalDesc s, None)
      end
  | AwaitMock => fun r s =>
      match r with
      | Some _ => handleMockData_ok p s
      | None => (handleMockData_fail s, None)
      end
  | AwaitCompleteAll => fun r s =>
      match r with
      | Some _ => (handleCompleteAll_ok p s, None)
      | None => (handleCompleteAll_fail p s, None)
      end
  end.

(** What can happen to a mounted component besides a remote call settling.
    [onFetchEffect] is the fetch effect running again; React does so when
    [fetchItems] is re-created, that is when [isCompletingAll] flips.  The
    system lets it run at any time, which covers every such schedule. *)
Inductive Action :=
| onSubmit (now : Z)
| onToggle (item : TodoListItem)
| onDelete (itemId : string)
| onStartEditing (item : TodoListItem)
| onCancelEditing
| onSaveDesc (itemId : string)
| onChangeNewItem (v : string)
| onChangeEditing (v : string)
| onMockData
| onCompleteAll
| onFetchEffect
| onInterval (t : Timeout)
| onProgress (updatedListId : ListIdArg) (justCompletedItemId : option string)
    (completedCount totalCount : Z)
| onHub (e : ConnectionEvent).

Definition act (p : Props) (a : Action) (s : State) : State * option Pending :=
  match a with
  | onSubmit now => handleAddItem p now s
  | onToggle item => handleToggleComplete item s
  | onDelete itemId => handleDeleteItem itemId s
  | onStartEditing item => (startEditing item s, None)
  | onCancelEditing => (cancelEditing s, None)
  | onSaveDesc itemId => handleUpdateItemDesc itemId s
  | onChangeNewItem v => (setNewItemDesc v s, None)
  | onChangeEditing v => (setEditingItemDesc v s, None)
  | onMockData => handleMockData p s
  | onCompleteAll => handleCompleteAll p s
  | onFetchEffect => fetchEffect p s
  | onInterval _ => fetchItems p false byPolling s
  | onProgress u j c t => (ReceiveTodoCompletionUpdate p u j c t s, None)
  | onHub e => (onConnection e s, None)
  end.

(** An interval callback runs only for an active timer, the hub handlers
    exist only in websocket mode, and the per-item controls are rendered
    from the items of the state. *)
Definition enabled (p : Props) (a : Action) (s : State) : Prop :=
  match a with
  | onInterval t => t ∈ intervals s
  | onProgress _ _ _ _ | onHub _ => mode p = websocket
  | onToggle item | onStartEditing item => item ∈ items s
  | _ => True
  end.

(** A configuration: the state and the remote calls in flight. *)
Definition Config : Type := State * list Pending.

Inductive step (p : Props) : Config -> Config -> Prop :=
| step_act a s inflight s' o :
    enabled p a s ->
    act p a s = (s', o) ->
    step p (s, inflight) (s', (inflight ++ option_list o)%list)
| step_settle pd r s before after s' o :
    resume p pd r s = (s', o) ->
    step p (s, (before ++ pd :: after)%list)
      (s', (before ++ after ++ option_list o)%list).

(** Mounting runs the fetch effect on the initial state. *)
Definition mounted (p : Props) : Config :=
  let '(s, o) := fetchEffect p initialState in (s, option_list o).

Definition reachable (p : Props) (c : Config) : Prop := rtc (step p) (mounted p) c.

(** Every active interval timer is the one [pollingIntervalRef] holds. *)
Definition timersTracked (s : State) : Prop :=
  intervals s = option_list (pollingIntervalRef s).

(** No progress object exists in vanilla mode. *)
Definition noProgressInVanilla (p : Props) (s : State) : Prop :=
  mode p = vanilla -> completionProgress s = None.

(** "Idle": no bulk operation running, no progress shown. *)
Definition Idle (s : State) : Prop :=
  isCompletingAll s = false /\ completionProgress s = None.

(** ** Renders and the fetch effect

    [fetchItems] is a [useCallback] over [listId], [isCompletingAll],
    [mode] and [stopPolling], and the fetch effect depends on [listId],
    [fetchItems] and [mode].  Props and [stopPolling] are constant, so the
    render that follows a handler re-creates [fetchItems], and with it
    re-runs the fetch effect, exactly when the handler changed
    [isCompletingAll]. *)

(** The render after a handler took the state from [before] to [after],
    with the effect it forces. *)
Definition commit (p : Props) (before after : State) : State * option Pending :=
  if Bool.eqb (isCompletingAll before) (isCompletingAll after) then (after, None)
  else fetchEffect p after.

(** One turn of the event loop: a handler or a continuation [h] run in
    state [s], then the render and its effect.  The result lists the calls
    now awaited: the one of the handler, then the one of the effect. *)
Definition turn (p : Props) (s : State) (h : State * option Pending)
    : State * list Pending :=
  let '(s1, o1) := h in
  let '(s2, o2) := commit p s s1 in
  (s2, (option_list o1 ++ option_list o2)%list).

Definition perform (p : Props) (a : Action) (s : State) : State * list Pending :=
  turn p s (act p a s).

Definition settle (p : Props) (pd : Pending) (r : option (Payload pd)) (s : State)
    : State * list Pending :=
  turn p s (resume p pd r s).

(** The schedules of the component: every turn is a user action, a timer
    tick, a hub event or a remote call settling, each followed by its
    render; the fetch effect runs only where a render forces it. *)
Inductive transition (p : Props) : Config -> Config -> Prop :=
| transition_act a s inflight s' new :
    a <> onFetchEffect ->
    enabled p a s ->
    perform p a s = (s', new) ->
    transition p (s, inflight) (s', (inflight ++ new)%list)
| transition_settle pd r s before after s' new :
    settle p pd r s = (s', new) ->
    transition p (s, (before ++ pd :: after)%list)
      (s', (before ++ after ++ new)%list).

Definition runs (p : Props) (c : Config) : Prop := rtc (transition p) (mounted p) c.

(** The awaits of the mock-data flow. *)
Definition isMockFlow (pd : Pending) : bool :=
  match pd with
  | AwaitMock | AwaitFetch byMock => true
  | _ => false
  end.

Definition mockCount (inflight : list Pending) : nat :=
  length (List.filter isMockFlow inflight).

(** A running bulk operation has its polling timer, or its trigger request
    is still awaited. *)
Definition cadenceKept (c : Config) : Prop :=
  isCompletingAll c.1 = true ->
  pollingIntervalRef c.1 <> None \/ AwaitCompleteAll ∈ c.2.

(** ** Vocabulary of the properties *)

(** The arguments of one [ReceiveTodoCompletionUpdate] event. *)
Record ProgressEvent := mkEvent {
  updatedListId : ListIdArg;
  justCompletedItemId : option string;
  completedCount : Z;
  totalCount : Z
}.

Definition receive (p : Props) (e : ProgressEvent) (s : State) : State :=
  ReceiveTodoCompletionUpdate p (updatedListId e) (justCompletedItemId e)
    (completedCount e) (totalCount e) s.

(** The handler run on a sequence of events, in arrival order. *)
Definition receiveAll (p : Props) (es : list ProgressEvent) (s : State) : State :=
  foldl (fun s e => receive p e s) s es.

Definition uniqueIds (its : list TodoListItem) : Prop := NoDup (List.map id its).

(** [its'] has the items of [its] in the same order, and differs from it
    at most in the [completed] field of the items whose id is [itemId]. *)
Definition sameButCompleted (itemId : string) (its its' : list TodoListItem) : Prop :=
  length its' = length its /\
  forall k it, its !! k = Some it ->
    exists it', its' !! k = Some it' /\
      id it' = id it /\ todoListId it' = todoListId it /\
      description it' = description it /\ numListId it' = numListId it /\
      (id it <> itemId -> it' = it).

(** At most one position of [its'] differs from [its]. *)
Definition atMostOneChanged (its its' : list TodoListItem) : Prop :=
  forall k1 k2, its' !! k1 <> its !! k1 -> its' !! k2 <> its !! k2 -> k1 = k2.

(** The four optimistic mutations, as actions. *)
Definition isOptimisticMutation (a : Action) : bool :=
  match a with
  | onSubmit _ | onToggle _ | onSaveDesc _ | onDelete _ => true
  | _ => false
  end.

(** Mutations whose roll-back writes back what the handler captured
    ([setItems(originalItems)], [setItems(items.map(...))]) rather than
    updating the collection that is current when the call fails. *)
Definition restoresCaptured (a : Action) : bool :=
  match a with
  | onSaveDesc _ | onDelete _ => true
  | _ => false
  end.

(** What the roll-back of a mutation started in [s] relies on: a
    provisional id no item carries yet; ids that name one item each. *)
Definition rollbackAssumption (a : Action) (s : State) : Prop :=
  match a with
  | onSubmit now => forall it, it ∈ items s -> id it <> tempIdAt now
  | onToggle item => item ∈ items s /\ uniqueIds (items s)
  | onSaveDesc _ => uniqueIds (items s)
  | _ => True
  end.

(** [its'] is [its] with the first item whose id is [j] marked completed:
    unchanged when no item has the id or that item is completed already. *)
Definition marksOnly (j : string) (its its' : list TodoListItem) : Prop :=
  ((forall it, it ∈ its -> id it <> j) -> its' = its) /\
  (forall k it,
     its !! k = Some it -> id it = j ->
     (forall k' x, (k' < k)%nat -> its !! k' = Some x -> id x <> j) ->
     if completed it then its' = its
     else length its' = length its /\
          its' !! k = Some (withCompleted it true) /\
          forall k', k' <> k -> its' !! k' = its !! k').

(** ** Sample data for the worked examples *)

Definition exProps (m : Mode) : Props := mkProps "5" m.

Definition exItem (i d : string) (c : bool) : TodoListItem := mkItem i "5" d c None.

(** The state once the initial fetch has resolved with [its]. *)
Definition exState (its : list TodoListItem) : State :=
  setLoading false (setItems its initialState).

(** ** What the render derives from the state *)

Definition allItemsCompleted (s : State) : bool :=
  (0 <? Z.of_nat (length (items s))) && every completed (items s).

Definition canPerformActions (s : State) : bool :=
  negb (isCompletingAll s) && negb (isMocking s).

(** What can happen at the input of the inline editor: typing, losing
    focus, the Enter key, the Escape key. *)
Inductive EditingEvent := edChange (v : string) | edBlur | edEnter | edEscape.

(** The controls of the view that carry a [disabled] attribute, each with
    the event it receives: the Back button, the two buttons of the header,
    the new-item input (typing [v]) and its submit button, and per item
    the checkbox, the input of the inline editor and the Save, Edit and
    Delete buttons.  (The Cancel button has no [disabled] attribute.) *)
Inductive Control :=
| btnBack
| btnMockData
| btnCompleteAll
| inputNewItem (v : string)
| btnAddItem (now : Z)
| chkCompleted (item : TodoListItem)
| inputEditing (item : TodoListItem) (ev : EditingEvent)
| btnSave (item : TodoListItem)
| btnEdit (item : TodoListItem)
| btnDelete (item : TodoListItem).

(** The [disabled] attribute of each control, as written in the JSX. *)
Definition disabled (c : Control) (s : State) : bool :=
  match c with
  | btnBack => negb (canPerformActions s)
  | btnMockData => negb (canPerformActions s) || isMocking s
  | btnCompleteAll =>
      negb (canPerformActions s) || allItemsCompleted s || isCompletingAll s
  | inputNewItem _ => negb (canPerformActions s)
  | btnAddItem _ =>
      negb (canPerformActions s) || negb (truthy (trim (newItemDesc s)))
  | chkCompleted item =>
      negb (canPerformActions s) || isEditing s (id item) || completed item
  | inputEditing _ _ => negb (canPerformActions s)
  | btnSave _ =>
      negb (canPerformActions s) || negb (truthy (trim (editingItemDesc s)))
  | btnEdit item => negb (canPerformActions s) || completed item
  | btnDelete item => negb (canPerformActions s) || isEditing s (id item)
  end.

(** The handler behind each control; [None] for the Back button, which
    calls the [onBack] prop of the parent. *)
Definition handlerOf (c : Control) : option Action :=
  match c with
  | btnBack => None
  | btnMockData => Some onMockData
  | btnCompleteAll => Some onCompleteAll
  | inputNewItem v => Some (onChangeNewItem v)
  | btnAddItem now => Some (onSubmit now)
  | chkCompleted item => Some (onToggle item)
  | inputEditing _ (edChange v) => Some (onChangeEditing v)
  | inputEditing item edBlur | inputEditing item edEnter => Some (onSaveDesc (id item))
  | inputEditing _ edEscape => Some onCancelEditing
  | btnSave item => Some (onSaveDesc (id item))
  | btnEdit item => Some (onStartEditing item)
  | btnDelete item => Some (onDelete (id item))
  end.

(** The controls whose handler checks again what their [disabled]
    attribute checks.  The others rely on the attribute alone: the Back
    button ([onBack] is called as it is), the two inputs when typing (the
    state setters are called as they are), the Escape key of the editor
    ([cancelEditing] has no guard), and the checkbox of a completed item
    ([handleToggleComplete] does not look at [item.completed]). *)
Definition handlerChecksAgain (c : Control) : bool :=
  match c with
  | btnBack | inputNewItem _ => false
  | inputEditing _ (edChange _) | inputEditing _ edEscape => false
  | chkCompleted item => negb (completed item)
  | _ => true
  end.

(** Actions of the user, as opposed to timers, effects and hub events. *)
Definition isUserMutation (a : Action) : bool :=
  match a with
  | onSubmit _ | onToggle _ | onDelete _ | onStartEditing _ | onSaveDesc _
  | onMockData | onCompleteAll => true
  | _ => false
  end.

(** [its'] has the items of [its] in the same order, and differs from it
    at most in the [description] field of the items whose id is [itemId]. *)
Definition sameButDescription (itemId : string) (its its' : list TodoListItem) : Prop :=
  length its' = length its /\
  forall k it, its !! k = Some it ->
    exists it', its' !! k = Some it' /\
      id it' = id it /\ todoListId it' = todoListId it /\
      completed it' = completed it /\ numListId it' = numListId it /\
      (id it <> itemId -> it' = it).

(** ** [services/api.ts]: [fetchApi] *)

Module Api.

(** What [fetchApi] reads of a [Response]: the status, the body as text,
    and the body parsed as JSON: [None] when [response.json()] rejects,
    [Some None] when the body is the JSON [null], [Some (Some v)] when it
    is a value, which the [as Promise<T>] casts take to be a [T]. *)
Record Response (T : Type) := mkResponse {
  status : Z;
  text : string;
  json : option (option T)
}.

Arguments mkResponse {T}.
Arguments status {T}.
Arguments text {T}.
Arguments json {T}.

(** [response.ok]. *)
Definition ok {T} (r : Response T) : bool :=
  (200 <=? status r) && (status r <=? 299).

(** How the promise of [fetchApi] settles: resolved with a value or with
    [null] ([Resolved None]), or rejected, with the message of the [Error]
    thrown by [fetchApi] itself when there is one. *)
Inductive Outcome (T : Type) :=
| Resolved (v : option T)
| Rejected (message : option string).

Arguments Resolved {T}.
Arguments Rejected {T}.

(** [response.json()] returned from an [async] function: the promise it
    returns is adopted, so a parse failure rejects ([catch] sees only
    synchronous throws, and [json()] does not throw synchronously). *)
Definition returnJson {T} (r : Response T) : Outcome T :=
  match json r with
  | Some v => Resolved v
  | None => Rejected None
  end.

(** [fetchApi(url, options, expectedStatus)] on the response [fetch]
    produced; [None] stands for [fetch] rejecting (no response). *)
Definition fetchApi {T} (response : option (Response T)) (expectedStatus : Z)
    : Outcome T :=
  match response with
  | None => Rejected None
  | Some r =>
      if status r =? expectedStatus then
        if (status r =? 204) || (status r =? 202) then Resolved None
        else returnJson r
      else if negb (ok r) then
        Rejected (Some ("API request failed with status " ++ toString (status r)
                        ++ ": " ++ text r))
      else returnJson r
  end.

End Api.

(** The [expectedStatus] each API function passes to [fetchApi]: 202 for
    the two complete-all triggers, the default 200 otherwise. *)
Definition expectedStatusOf (rq : Request) : Z :=
  match rq with
  | completeAllItems _ | completeAllItemsSignalR _ => 202
  | _ => 200
  end.

(** The type parameter of [fetchApi] in the call a handler awaits. *)
Definition ResponseBody (pd : Pending) : Type :=
  match pd with
  | AwaitFetch _ => list TodoListItem
  | AwaitAdd _ _ | AwaitToggle _ _ | AwaitUpdateDesc _ _ _ _ => TodoListItem
  | AwaitDelete _ _ | AwaitCompleteAll => unit
  | AwaitMock => string
  end.

(** What the outcome of the API call hands to the suspended handler.  The
    handlers that use the resolved value ([fetchItems], [handleAddItem])
    expect an object: [None] marks the case of [null] arriving there (a
    response with status 200 whose body is the JSON [null]), which throws
    in the handler or in the next render and is not followed further. *)
Definition deliver (pd : Pending)
    : Api.Outcome (ResponseBody pd) -> option (option (Payload pd)) :=
  match pd with
  | AwaitFetch _ | AwaitAdd _ _ => fun o =>
      match o with
      | Api.Resolved (Some v) => Some (Some v)
      | Api.Resolved None => None
      | Api.Rejected _ => Some None
      end
  | _ => fun o =>
      match o with
      | Api.Resolved _ => Some (Some tt)
      | Api.Rejected _ => Some None
      end
  end.

(** A suspended handler meeting the response to its request. *)
Definition respond (p : Props) (pd : Pending)
    (response : option (Api.Response (ResponseBody pd))) (s : State)
    : option (State * option Pending) :=
  match deliver pd (Api.fetchApi response (expectedStatusOf (request_of p pd))) with
  | Some r => Some (resume p pd r s)
  | None => None
  end.

(** ** [components/TodoListList.tsx] *)

Module Lists.

(** [TodoList] of [types/index.ts]. *)
Record TodoList := mkList { id : string; name : string }.

Record State := mkState {
  lists : list TodoList;
  newListName : string;
  loading : bool;
  error : option string
}.

Definition initialState : State :=
  {| lists := []; newListName := ""; loading := true; error := None |}.

Definition setLists (v : list TodoList) (s : State) : State :=
  mkState v (newListName s) (loading s) (error s).

Definition setNewListName (v : string) (s : State) : State :=
  mkState (lists s) v (loading s) (error s).

Definition setLoading (v : bool) (s : State) : State :=
  mkState (lists s) (newListName s) v (error s).

Definition setError (v : option string) (s : State) : State :=
  mkState (lists s) (newListName s) (loading s) v.

(** A handler suspended at its [await]; [closureLists] is the [lists] of
    the render the handler was called from. *)
Inductive Pending :=
| AwaitLists
| AwaitCreate (name : string) (closureLists : list TodoList)
| AwaitDelete (id : string) (closureLists : list TodoList).

Definition fetchLists (s : State) : State * option Pending :=
  (setError None (setLoading true s), Some AwaitLists).

Definition fetchLists_ok (data : list TodoList) (s : State) : State :=
  setLoading false (setLists data s).

Definition fetchLists_fail (s : State) : State :=
  setLoading false
    (setError (Some "Failed to fetch lists. Please ensure the API is running.") s).

Definition handleCreateList (s : State) : State * option Pending :=
  if negb (truthy (trim (newListName s))) then (s, None)
  else (setError None s, Some (AwaitCreate (newListName s) (lists s))).

Definition handleCreateList_ok (closureLists : list TodoList) (newList : TodoList)
    (s : State) : State :=
  setNewListName "" (setLists (closureLists ++ [newList]) s).

Definition handleCreateList_fail (s : State) : State :=
  setError (Some "Failed to create list.") s.

(** [handleDeleteList]; [confirmed] is the answer to the [confirm] dialog. *)
Definition handleDeleteList (id : string) (confirmed : bool) (s : State)
    : State * option Pending :=
  let s := setError None s in
  if negb confirmed then (s, None)
  else (s, Some (AwaitDelete id (lists s))).

Definition handleDeleteList_ok (id0 : string) (closureLists : list TodoList)
    (s : State) : State :=
  setLists (List.filter (fun list => negb (seq (id list) id0)) closureLists) s.

Definition handleDeleteList_fail (s : State) : State :=
  setError (Some "Failed to delete list.") s.

Definition Payload (pd : Pending) : Type :=
  match pd with
  | AwaitLists => list TodoList
  | AwaitCreate _ _ => TodoList
  | AwaitDelete _ _ => unit
  end.

(** The continuation of a suspended handler: [Some v] when the call
    resolved with [v], [None] when it was rejected. *)
Definition resume (pd : Pending) : option (Payload pd) -> State -> State :=
  match pd with
  | AwaitLists => fun r s =>
      match r with
      | Some data => fetchLists_ok data s
      | None => fetchLists_fail s
      end
  | AwaitCreate _ closureLists => fun r s =>
      match r with
      | Some newList => handleCreateList_ok closureLists newList s
      | None => handleCreateList_fail s
      end
  | AwaitDelete id0 closureLists => fun r s =>
      match r with
      | Some _ => handleDeleteList_ok id0 closureLists s
      | None => handleDeleteList_fail s
      end
  end.

Inductive Action :=
| onMount
| onChangeName (v : string)
| onCreate
| onDelete (id : string) (confirmed : bool).

Definition act (a : Action) (s : State) : State * option Pending :=
  match a with
  | onMount => fetchLists s
  | onChangeName v => (setNewListName v s, None)
  | onCreate => handleCreateList s
  | onDelete id0 confirmed => handleDeleteList id0 confirmed s
  end.

End Lists.

(** ** [App.tsx] *)

Module App.

(** ["select" | "vanilla" | "websocket"]. *)
Inductive AppMode := appSelect | appVanilla | appWebsocket.

Record State := mkState {
  selectedListId : option string;
  selectedListName : string;
  allLists : list Lists.TodoList;
  isLoadingLists : bool;
  currentMode : AppMode
}.

Definition initialState : State :=
  {| selectedListId := None; selectedListName := ""; allLists := [];
     isLoadingLists := false; currentMode := appSelect |}.

(** Truthiness of [selectedListId]: [null] and the empty string are falsy. *)
Definition hasSelection (s : State) : bool :=
  match selectedListId s with
  | Some l => truthy l
  | None => false
  end.

Definition handleSelectList (listId : string) (s : State) : State :=
  let list := find (fun l => seq (Lists.id l) listId) (allLists s) in
  mkState (Some listId)
    (match list with Some l => Lists.name l | None => "List" end)
    (allLists s) (isLoadingLists s) (currentMode s).

Definition handleBackToLists (s : State) : State :=
  mkState None "" (allLists s) (isLoadingLists s) (currentMode s).

Definition selectMode (m : AppMode) (s : State) : State :=
  mkState None "" (allLists s) (isLoadingLists s) m.

(** The condition under which the effect fetches the lists. *)
Definition effectFetches (s : State) : bool :=
  match currentMode s with
  | appSelect => false
  | _ => negb (hasSelection s)
  end.

(** [fetchInitialLists] up to its [await]. *)
Definition fetchInitialLists (s : State) : State :=
  mkState (selectedListId s) (selectedListName s) (allLists s) true (currentMode s).

(** [fetchInitialLists] after [getTodoLists] settled: [Some lists] when it
    resolved, [None] when it was rejected; then the [finally] block. *)
Definition fetchInitialLists_settled (r : option (list Lists.TodoList)) (s : State)
    : State :=
  mkState (selectedListId s) (selectedListName s)
    (match r with Some lists => lists | None => allLists s end)
    false (currentMode s).

(** The dependencies of the effect: [currentMode] and [selectedListId]. *)
Definition sameDeps (a b : State) : bool :=
  match currentMode a, currentMode b with
  | appSelect, appSelect | appVanilla, appVanilla
  | appWebsocket, appWebsocket => true
  | _, _ => false
  end
  && match selectedListId a, selectedListId b with
     | None, None => true
     | Some x, Some y => seq x y
     | _, _ => false
     end.

(** The render after a handler took the state from [before] to [after]:
    the effect runs again when a dependency changed, and fetches the lists
    under its condition. *)
Definition commit (before after : State) : State :=
  if sameDeps before after then after
  else if effectFetches after then fetchInitialLists after
  else after.

(** What the component returns: the mode chooser, the loading line, the
    detail view with its props, or the list of lists. *)
Inductive View :=
| ModeSelection
| LoadingLists
| Detail (listId listName : string) (props : Props)
| ListList (m : Mode).

Definition body (m : Mode) (s : State) : View :=
  if isLoadingLists s then LoadingLists
  else
    match selectedListId s with
    | Some l => if truthy l then Detail l (selectedListName s) (mkProps l m)
                else ListList m
    | None => ListList m
    end.

Definition render (s : State) : View :=
  match currentMode s with
  | appSelect => ModeSelection
  | appVanilla => body vanilla s
  | appWebsocket => body websocket s
  end.

Inductive Action :=
| clickMode (m : AppMode)
| clickList (listId : string)
| clickBack
| runEffect
| listsSettled (r : option (list Lists.TodoList)).

Definition act (a : Action) (s : State) : State :=
  match a with
  | clickMode m => selectMode m s
  | clickList listId => handleSelectList listId s
  | clickBack => handleBackToLists s
  | runEffect => fetchInitialLists s
  | listsSettled r => fetchInitialLists_settled r s
  end.

(** [onSelectList] belongs to the rendered list of lists, [onBack] to the
    rendered detail view; the effect fetches only under its condition. *)
Definition enabled (a : Action) (s : State) : Prop :=
  match a with
  | clickMode _ | listsSettled _ => True
  | clickList _ => exists m, render s = ListList m
  | clickBack => exists l n p, render s = Detail l n p
  | runEffect => effectFetches s = true
  end.

End App.

(** Strings without white space: [trim] leaves them as they are. *)
Fixpoint noWhiteSpace (s : string) : bool :=
  match s with
  | EmptyString => true
  | String c r => negb (isWhiteSpace c) && noWhiteSpace r
  end.

(** * Properties *)

(** ** Invariants of the transition system *)

Lemma stopPolling_stops s :
  timersTracked s ->
  pollingIntervalRef (stopPolling s) = None /\ intervals (stopPolling s) = [].
Proof.
  unfold timersTracked, stopPolling. intros H.
  destruct (pollingIntervalRef s) as [t|] eqn:E; cbn in *.
  - rewrite H. cbn. by rewrite Nat.eqb_refl.
  - by rewrite E.
Qed.

Lemma stopPolling_tracked s : timersTracked s -> timersTracked (stopPolling s).
Proof.
  intros H. destruct (stopPolling_stops s H) as [E1 E2].
  unfold timersTracked. by rewrite E1, E2.
Qed.

Ltac unfold_handlers :=
  unfold act, resume, fetchEffect, handleMockData_ok,
    fetchItems, fetchItems_ok, fetchItems_fail,
    handleAddItem, handleAddItem_ok, handleAddItem_fail,
    handleToggleComplete, handleToggleComplete_fail,
    handleDeleteItem, handleDeleteItem_fail,
    handleUpdateItemDesc, handleUpdateItemDesc_fail,
    startEditing, cancelEditing,
    handleMockData, handleMockData_fail,
    handleCompleteAll, handleCompleteAll_fail,
    ReceiveTodoCompletionUpdate, onConnection in *.

Lemma tracked_same s s' :
  intervals s' = intervals s -> pollingIntervalRef s' = pollingIntervalRef s ->
  timersTracked s -> timersTracked s'.
Proof. unfold timersTracked. by intros -> ->. Qed.

Create HintDb tracked.

#[local] Hint Resolve stopPolling_tracked : tracked.
#[local] Hint Extern 1 (timersTracked (setItems _ ?s)) =>
  apply (tracked_same s); [reflexivity | reflexivity |] : tracked.
#[local] Hint Extern 1 (timersTracked (setNewItemDesc _ ?s)) =>
  apply (tracked_same s); [reflexivity | reflexivity |] : tracked.
#[local] Hint Extern 1 (timersTracked (setLoading _ ?s)) =>
  apply (tracked_same s); [reflexivity | reflexivity |] : tracked.
#[local] Hint Extern 1 (timersTracked (setError _ ?s)) =>
  apply (tracked_same s); [reflexivity | reflexivity |] : tracked.
#[local] Hint Extern 1 (timersTracked (setIsMocking _ ?s)) =>
  apply (tracked_same s); [reflexivity | reflexivity |] : tracked.
#[local] Hint Extern 1 (timersTracked (setIsCompletingAll _ ?s)) =>
  apply (tracked_same s); [reflexivity | reflexivity |] : tracked.
#[local] Hint Extern 1 (timersTracked (setEditingItemId _ ?s)) =>
  apply (tracked_same s); [reflexivity | reflexivity |] : tracked.
#[local] Hint Extern 1 (timersTracked (setEditingItemDesc _ ?s)) =>
  apply (tracked_same s); [reflexivity | reflexivity |] : tracked.
#[local] Hint Extern 1 (timersTracked (setCompletionProgress _ ?s)) =>
  apply (tracked_same s); [reflexivity | reflexivity |] : tracked.

Lemma act_tracked p a s s' o :
  timersTracked s -> act p a s = (s', o) -> timersTracked s'.
Proof.
  intros H E.
  destruct a; unfold_handlers; cbn in E;
    repeat case_match; simplify_eq; auto 10 with tracked.
Qed.

Lemma handleCompleteAll_ok_tracked p s :
  timersTracked s -> timersTracked (handleCompleteAll_ok p s).
Proof.
  unfold timersTracked, handleCompleteAll_ok. intros H.
  destruct (mode p); [|done].
  destruct (pollingIntervalRef s) eqn:E; cbn; [by rewrite E|].
  by rewrite H.
Qed.

#[local] Hint Resolve handleCompleteAll_ok_tracked : tracked.

Lemma resume_tracked p pd r s s' o :
  timersTracked s -> resume p pd r s = (s', o) -> timersTracked s'.
Proof.
  intros H E.
  destruct pd; unfold_handlers; cbn in E;
    repeat case_match; simplify_eq; auto 10 with tracked.
Qed.

Lemma stopPolling_progress s :
  completionProgress (stopPolling s) = completionProgress s.
Proof. unfold stopPolling. by destruct (pollingIntervalRef s). Qed.

Lemma act_noProgress p a s s' o :
  mode p = vanilla -> enabled p a s ->
  completionProgress s = None -> act p a s = (s', o) ->
  completionProgress s' = None.
Proof.
  intros Hm He H E.
  destruct a; unfold_handlers; unfold isVanilla in *; cbn in E, He;
    rewrite ?Hm in *; try discriminate;
    repeat case_match; simplify_eq; cbn;
    rewrite ?stopPolling_progress; cbn; rewrite ?stopPolling_progress; done.
Qed.

Lemma resume_noProgress p pd r s s' o :
  mode p = vanilla ->
  completionProgress s = None -> resume p pd r s = (s', o) ->
  completionProgress s' = None.
Proof.
  intros Hm H E.
  destruct pd; unfold_handlers; unfold handleCompleteAll_ok, isVanilla in *;
    cbn in E; rewrite ?Hm in *;
    repeat case_match; simplify_eq; cbn;
    rewrite ?stopPolling_progress; cbn; rewrite ?stopPolling_progress; done.
Qed.

Lemma mounted_initial p : mounted p = (initialState, [AwaitFetch byEffect]).
Proof. unfold mounted, fetchEffect, fetchItems, isVanilla. by destruct (mode p). Qed.

(** Both invariants hold in every reachable configuration. *)
Lemma reachable_invariant p c :
  reachable p c -> timersTracked c.1 /\ noProgressInVanilla p c.1.
Proof.
  unfold reachable. revert c.
  apply rtc_ind_r; [rewrite mounted_initial; by split|].
  intros c0 c _ St [T N].
  destruct St as [a s inflight s' o He E | pd r s before after s' o E]; cbn in *.
  - split; [by eapply act_tracked|].
    intros Hm. eapply act_noProgress; eauto.
  - split; [by eapply resume_tracked|].
    intros Hm. eapply resume_noProgress; eauto.
Qed.

(** Two more: websocket mode holds no timer, and the two exclusive
    operations are never both in progress. *)
Lemma act_websocket_no_ref p a s s' o :
  mode p = websocket -> pollingIntervalRef s = None ->
  act p a s = (s', o) -> pollingIntervalRef s' = None.
Proof.
  intros Hm H E.
  destruct s; cbn in H; subst.
  destruct a; unfold_handlers; unfold stopPolling, isVanilla in *; cbn in E;
    rewrite ?Hm in *; repeat case_match; simplify_eq; done.
Qed.

Lemma resume_websocket_no_ref p pd r s s' o :
  mode p = websocket -> pollingIntervalRef s = None ->
  resume p pd r s = (s', o) -> pollingIntervalRef s' = None.
Proof.
  intros Hm H E.
  destruct s; cbn in H; subst.
  destruct pd; unfold_handlers;
    unfold handleCompleteAll_ok, stopPolling, isVanilla in *; cbn in E;
    rewrite ?Hm in *; repeat case_match; simplify_eq; done.
Qed.

Lemma act_exclusive p a s s' o :
  isMocking s && isCompletingAll s = false ->
  act p a s = (s', o) -> isMocking s' && isCompletingAll s' = false.
Proof.
  intros H E.
  destruct s as [? ? ? ? mocking completing ? ? ? ref ? ?]; cbn in H.
  destruct a; unfold_handlers; unfold stopPolling in *; cbn in E;
    destruct mocking, completing; try discriminate; cbn in E;
    repeat case_match; simplify_eq; done.
Qed.

Lemma resume_exclusive p pd r s s' o :
  isMocking s && isCompletingAll s = false ->
  resume p pd r s = (s', o) -> isMocking s' && isCompletingAll s' = false.
Proof.
  intros H E.
  destruct s as [? ? ? ? mocking completing ? ? ? ref ? ?]; cbn in H.
  destruct pd; unfold_handlers; unfold handleCompleteAll_ok, stopPolling in *;
    cbn in E; destruct mocking, completing; try discriminate; cbn in E;
    repeat case_match; simplify_eq; cbn; rewrite ?andb_false_r; done.
Qed.

Lemma reachable_invariant_more p c :
  reachable p c ->
  (mode p = websocket -> pollingIntervalRef c.1 = None) /\
  isMocking c.1 && isCompletingAll c.1 = false.
Proof.
  unfold reachable. revert c.
  apply rtc_ind_r; [rewrite mounted_initial; by split|].
  intros c0 c _ St [W X].
  destruct St as [a s inflight s' o He E | pd r s before after s' o E]; cbn in *.
  - split; [|by eapply act_exclusive].
    intros Hm. eapply act_websocket_no_ref; eauto.
  - split; [|by eapply resume_exclusive].
    intros Hm. eapply resume_websocket_no_ref; eauto.
Qed.

(** ** Facts about the array methods *)

Lemma seq_eq a b : seq a b = true <-> a = b.
Proof. apply String.eqb_eq. Qed.

Lemma seq_neq a b : seq a b = false <-> a <> b.
Proof. apply String.eqb_neq. Qed.

Lemma findIndex_None {A} (f : A -> bool) (l : list A) :
  findIndex f l = None <-> forall x, x ∈ l -> f x = false.
Proof.
  induction l as [|a l IH]; cbn.
  - split; [|done]. intros _ x Hx. by apply elem_of_nil in Hx.
  - destruct (f a) eqn:Fa.
    + split; [done|]. intros H. specialize (H a (list_elem_of_here _ _)). congruence.
    + destruct (findIndex f l) as [k|]; cbn.
      * split; [done|]. intros H.
        assert (Some k = None) by (apply IH; intros x Hx; apply H; by right).
        done.
      * split; [|done]. intros _ x Hx.
        apply elem_of_cons in Hx as [->|Hx]; [done|]. by apply IH.
Qed.

Lemma findIndex_Some {A} (f : A -> bool) (l : list A) (k : nat) :
  findIndex f l = Some k <->
  exists x, l !! k = Some x /\ f x = true /\
    forall j y, (j < k)%nat -> l !! j = Some y -> f y = false.
Proof.
  revert k. induction l as [|a l IH]; intros k; cbn.
  - split; [done|]. by intros (x & Hx & _).
  - destruct (f a) eqn:Fa.
    + split.
      * intros [= <-]. exists a. repeat split; [done|]. intros j y Hj. lia.
      * intros (x & Hx & Fx & Hlt). destruct k as [|k]; [done|].
        specialize (Hlt 0%nat a). cbn in Hlt. rewrite Hlt in Fa; [done|lia|done].
    + split.
      * destruct (findIndex f l) as [k'|] eqn:E; [|done]. cbn. intros [= <-].
        destruct (proj1 (IH k') eq_refl) as (x & Hx & Fx & Hlt).
        exists x. repeat split; [done..|].
        intros [|j] y Hj Hy; cbn in Hy; [congruence|]. apply (Hlt j); [lia|done].
      * intros (x & Hx & Fx & Hlt). destruct k as [|k]; cbn in Hx; [congruence|].
        assert (findIndex f l = Some k) as ->; [|done].
        apply IH. exists x. repeat split; [done..|].
        intros j y Hj Hy. apply (Hlt (S j)); [lia|done].
Qed.

Lemma withCompleted_same (i : TodoListItem) : withCompleted i (completed i) = i.
Proof. by destruct i. Qed.

Lemma withDescription_same (i : TodoListItem) : withDescription i (description i) = i.
Proof. by destruct i. Qed.

(** With unique ids, an id names one element. *)
Lemma unique_id (l : list TodoListItem) (x y : TodoListItem) :
  NoDup (List.map id l) -> x ∈ l -> y ∈ l -> id x = id y -> x = y.
Proof.
  induction l as [|a l IH]; cbn; intros ND Hx Hy E.
  - by apply elem_of_nil in Hx.
  - apply NoDup_cons in ND as [Na ND].
    apply elem_of_cons in Hx as [->|Hx]; apply elem_of_cons in Hy as [->|Hy];
      try done.
    + exfalso. apply Na. rewrite E. by apply (list_elem_of_fmap_2 id).
    + exfalso. apply Na. rewrite <- E. by apply (list_elem_of_fmap_2 id).
    + by apply IH.
Qed.

Lemma map_id_ext {A} (f : A -> A) (l : list A) :
  (forall x, x ∈ l -> f x = x) -> List.map f l = l.
Proof.
  induction l as [|a l IH]; cbn; intros H; [done|].
  rewrite H by left. f_equal. apply IH. intros x Hx. apply H. by right.
Qed.

Lemma filter_id_ext {A} (f : A -> bool) (l : list A) :
  (forall x, x ∈ l -> f x = true) -> List.filter f l = l.
Proof.
  induction l as [|a l IH]; cbn; intros H; [done|].
  rewrite H by left. f_equal. apply IH. intros x Hx. apply H. by right.
Qed.

(** ** The push driver's item update *)

Lemma markCompleted_first (j : string) (its : list TodoListItem) k it :
  its !! k = Some it -> id it = j ->
  (forall k' x, (k' < k)%nat -> its !! k' = Some x -> id x <> j) ->
  markCompleted j its =
    if completed it then its else <[k := withCompleted it true]> its.
Proof.
  intros Hk Hid Hfirst. unfold markCompleted.
  assert (findIndex (fun item => seq (id item) j) its = Some k) as ->.
  { apply findIndex_Some. exists it. repeat split; [done|by apply seq_eq|].
    intros k' y Hlt Hy. apply seq_neq. eauto. }
  by rewrite Hk.
Qed.

Lemma markCompleted_absent (j : string) (its : list TodoListItem) :
  (forall it, it ∈ its -> id it <> j) -> markCompleted j its = its.
Proof.
  intros H. unfold markCompleted.
  assert (findIndex (fun item => seq (id item) j) its = None) as ->; [|done].
  apply findIndex_None. intros x Hx. apply seq_neq. auto.
Qed.

(** The updater is total and idempotent.  If no item carries the id, the
    collection is unchanged; if the first item carrying it is completed
    already, the collection is unchanged; otherwise the collection keeps
    its length and order, that item becomes the same item with
    [completed = true], and every other position is untouched. *)
Lemma markCompleted_spec (j : string) (its : list TodoListItem) :
  ((forall it, it ∈ its -> id it <> j) -> markCompleted j its = its) /\
  (forall k it,
     its !! k = Some it -> id it = j ->
     (forall k' x, (k' < k)%nat -> its !! k' = Some x -> id x <> j) ->
     if completed it then markCompleted j its = its
     else length (markCompleted j its) = length its /\
          markCompleted j its !! k = Some (withCompleted it true) /\
          forall k', k' <> k -> markCompleted j its !! k' = its !! k') /\
  markCompleted j (markCompleted j its) = markCompleted j its.
Proof.
  split; [apply markCompleted_absent|]. split.
  - intros k it Hk Hid Hfirst.
    rewrite (markCompleted_first j its k it Hk Hid Hfirst).
    destruct (completed it); [done|]. repeat split.
    + apply length_insert.
    + apply list_lookup_insert_eq. by eapply lookup_lt_Some.
    + intros k' Hne. by apply list_lookup_insert_ne.
  - destruct (findIndex (fun item => seq (id item) j) its) as [k|] eqn:E.
    + apply findIndex_Some in E as (it & Hk & Fit & Hfirst).
      apply seq_eq in Fit.
      assert (forall k' x, (k' < k)%nat -> its !! k' = Some x -> id x <> j) as Hf.
      { intros k' x Hlt Hx. apply seq_neq. eauto. }
      rewrite (markCompleted_first j its k it Hk Fit Hf).
      destruct (completed it) eqn:C.
      * rewrite (markCompleted_first j its k it Hk Fit Hf). by rewrite C.
      * rewrite (markCompleted_first j _ k (withCompleted it true)); cbn; [done| |done|].
        -- apply list_lookup_insert_eq. by eapply lookup_lt_Some.
        -- intros k' x Hlt. rewrite list_lookup_insert_ne by lia. by apply Hf.
    + assert (markCompleted j its = its) as ->; [|by unfold markCompleted; rewrite E].
      by unfold markCompleted; rewrite E.
Qed.

(** ** Frame of the toggle updaters *)

Section MapFrame.
Variable itemId : string.
Variable g : TodoListItem -> TodoListItem.
Hypothesis g_other : forall i, id i <> itemId -> g i = i.
Hypothesis g_completed : forall i, exists v, g i = withCompleted i v.

Lemma map_sameButCompleted its : sameButCompleted itemId its (List.map g its).
Proof.
  split; [apply length_map|].
  intros k it Hk. exists (g it). split.
  - change (List.map g its) with (g <$> its). by rewrite list_lookup_fmap, Hk.
  - destruct (g_completed it) as [v Hv]. rewrite Hv. cbn.
    repeat split; try done.
    intros Hne. rewrite <- Hv. by apply g_other.
Qed.

Lemma map_absent its :
  (forall it, it ∈ its -> id it <> itemId) -> List.map g its = its.
Proof. intros H. apply map_id_ext. intros x Hx. apply g_other. auto. Qed.

Lemma map_changed its k :
  List.map g its !! k <> its !! k ->
  exists it, its !! k = Some it /\ id it = itemId.
Proof.
  change (List.map g its) with (g <$> its). rewrite list_lookup_fmap.
  destruct (its !! k) as [it|]; cbn; [|done].
  intros Hne. exists it. split; [done|].
  destruct (string_dec (id it) itemId) as [|Hid]; [done|].
  by rewrite g_other in Hne.
Qed.

Lemma map_atMostOneChanged its :
  uniqueIds its -> atMostOneChanged its (List.map g its).
Proof.
  intros ND k1 k2 H1 H2.
  apply map_changed in H1 as (i1 & L1 & E1).
  apply map_changed in H2 as (i2 & L2 & E2).
  eapply (NoDup_lookup (id <$> its)); [exact ND| |].
  - rewrite list_lookup_fmap, L1. cbn. by rewrite E1.
  - rewrite list_lookup_fmap, L2. cbn. by rewrite E2.
Qed.
End MapFrame.

Lemma sameButCompleted_refl itemId its : sameButCompleted itemId its its.
Proof. split; [done|]. intros k it Hk. by exists it. Qed.

Lemma atMostOneChanged_refl its : atMostOneChanged its its.
Proof. by intros k1 k2 H. Qed.

Lemma toggle_frames itemId its :
  sameButCompleted itemId its (toggleItems itemId its) /\
  ((forall it, it ∈ its -> id it <> itemId) -> toggleItems itemId its = its) /\
  (uniqueIds its -> atMostOneChanged its (toggleItems itemId its)).
Proof.
  unfold toggleItems.
  set (g := fun i => if seq (id i) itemId
                     then withCompleted i (negb (completed i)) else i).
  assert (forall i, id i <> itemId -> g i = i) as Ho.
  { intros i Hi. unfold g. by apply seq_neq in Hi as ->. }
  assert (forall i, exists v, g i = withCompleted i v) as Hc.
  { intros i. unfold g. destruct (seq (id i) itemId); eauto.
    exists (completed i). by rewrite withCompleted_same. }
  split; [|split].
  - by apply map_sameButCompleted.
  - by apply map_absent.
  - by apply (map_atMostOneChanged itemId).
Qed.

Lemma untoggle_frames itemId v its :
  sameButCompleted itemId its (untoggleItems itemId v its) /\
  ((forall it, it ∈ its -> id it <> itemId) -> untoggleItems itemId v its = its) /\
  (uniqueIds its -> atMostOneChanged its (untoggleItems itemId v its)).
Proof.
  unfold untoggleItems.
  set (g := fun i => if seq (id i) itemId then withCompleted i v else i).
  assert (forall i, id i <> itemId -> g i = i) as Ho.
  { intros i Hi. unfold g. by apply seq_neq in Hi as ->. }
  assert (forall i, exists w, g i = withCompleted i w) as Hc.
  { intros i. unfold g. destruct (seq (id i) itemId); eauto.
    exists (completed i). by rewrite withCompleted_same. }
  split; [|split].
  - by apply map_sameButCompleted.
  - by apply map_absent.
  - by apply (map_atMostOneChanged itemId).
Qed.

(** C9. The optimistic toggle and its roll-back change at most the
    [completed] field of the item with the given id: the collection keeps
    its length and order, every item keeps its id, list id and description,
    items with another id are untouched, a collection without that id is
    unchanged, and with unique ids at most one position changes. *)
Theorem toggle_changes_only_completed (item : TodoListItem) (itemId : string)
    (originalCompleted : bool) (s : State) :
  let after := items (handleToggleComplete item s).1 in
  let back := items (handleToggleComplete_fail itemId originalCompleted s) in
  (sameButCompleted (id item) (items s) after /\
   ((forall it, it ∈ items s -> id it <> id item) -> after = items s) /\
   (uniqueIds (items s) -> atMostOneChanged (items s) after)) /\
  (sameButCompleted itemId (items s) back /\
   ((forall it, it ∈ items s -> id it <> itemId) -> back = items s) /\
   (uniqueIds (items s) -> atMostOneChanged (items s) back)).
Proof.
  cbn zeta. split.
  - unfold handleToggleComplete.
    destruct (isCompletingAll s || isMocking s || isEditing s (id item)); cbn.
    + split; [apply sameButCompleted_refl|]. split; [done|].
      intros _. apply atMostOneChanged_refl.
    + apply toggle_frames.
  - unfold handleToggleComplete_fail; cbn. apply untoggle_frames.
Qed.

(** The statement of C9 at a two-item collection: toggling the first item
    changes one position, rolling back an absent id changes nothing. *)
Lemma toggle_changes_only_completed_witness :
  let a := exItem "1" "a" false in
  let s := exState [a; exItem "2" "b" true] in
  atMostOneChanged (items s) (items (handleToggleComplete a s).1) /\
  items (handleToggleComplete_fail "9" true s) = items s.
Proof.
  intros a s.
  destruct (toggle_changes_only_completed a "9" true s)
    as ((_ & _ & Hone) & (_ & Habs & _)).
  split.
  - apply Hone. unfold uniqueIds. cbn.
    apply NoDup_cons. split; [|apply NoDup_singleton].
    intros Hin. by apply list_elem_of_singleton in Hin.
  - apply Habs. intros it Hit. cbn in Hit.
    repeat (apply elem_of_cons in Hit as [->|Hit]; [discriminate|]).
    by apply elem_of_nil in Hit.
Defined.

(** ** Optimistic creation *)

Lemma seq_refl a : seq a a = true.
Proof. by apply seq_eq. Qed.

(** C10. When an optimistic creation fails, the roll-back removes the
    provisional item, restores the new-item draft to the description that
    was submitted (the one sent in the request) and sets the create error;
    the draft had been cleared by the optimistic step. *)
Theorem add_failure_restores_draft (p : Props) (now : Z) (s s1 : State)
    (pd : Pending) :
  handleAddItem p now s = (s1, Some pd) ->
  newItemDesc s1 = "" /\
  request_of p pd = createTodoListItem (listId p) (newItemDesc s) /\
  forall s2,
    let r := resume p pd None s2 in
    newItemDesc r.1 = newItemDesc s /\
    (forall it, it ∈ items r.1 -> id it <> tempIdAt now) /\
    error r.1 = Some "Failed to add item." /\
    r.2 = None.
Proof.
  unfold handleAddItem.
  destruct (negb (truthy (trim (newItemDesc s))) || isCompletingAll s || isMocking s);
    [done|].
  intros [= <- <-]. cbn. repeat split; try done.
  intros it Hit Hid.
  apply list_elem_of_In, filter_In in Hit as [_ Hf].
  apply negb_true_iff, seq_neq in Hf. done.
Qed.

Lemma add_failure_restores_draft_witness :
  let p := exProps vanilla in
  let s := setNewItemDesc "buy milk" (exState []) in
  let r := resume p (AwaitAdd (tempIdAt 7) "buy milk") None (handleAddItem p 7 s).1 in
  newItemDesc r.1 = "buy milk" /\ items r.1 = [].
Proof.
  intros p s r.
  destruct (add_failure_restores_draft p 7 s (handleAddItem p 7 s).1
              (AwaitAdd (tempIdAt 7) "buy milk") eq_refl) as (_ & _ & H).
  destruct (H (handleAddItem p 7 s).1) as (Hd & _ & _ & _).
  split; [exact Hd | reflexivity].
Defined.

(** ** The bulk operation *)

Lemma every_spec {A} (f : A -> bool) (l : list A) :
  every f l = true <-> forall x, x ∈ l -> f x = true.
Proof.
  unfold every. rewrite forallb_forall.
  split; intros H x Hx; apply H; by apply list_elem_of_In.
Qed.

Lemma filter_none {A} (f : A -> bool) (l : list A) :
  (forall x, x ∈ l -> f x = false) -> List.filter f l = [].
Proof.
  induction l as [|a l IH]; cbn; intros H; [done|].
  rewrite H by left. apply IH. intros x Hx. apply H. by right.
Qed.

(** C4. Invoking complete-all on a collection that is empty, or in which
    every item is completed, is a silent no-op: the state (bulk flag,
    progress, error, timers) is returned as it was and no remote call is
    awaited. *)
Theorem completeAll_noop (p : Props) (s : State) :
  items s = [] \/ every completed (items s) = true ->
  handleCompleteAll p s = (s, None).
Proof.
  intros H. unfold handleCompleteAll.
  destruct (isCompletingAll s || isMocking s); [done|].
  assert (List.filter (fun item => negb (completed item)) (items s) = []) as ->; [|done].
  destruct H as [-> | H]; [done|].
  apply filter_none. intros x Hx.
  by rewrite (proj1 (every_spec _ _) H x Hx).
Qed.

Lemma completeAll_noop_witness :
  handleCompleteAll (exProps websocket) (exState []) = (exState [], None) /\
  handleCompleteAll (exProps vanilla) (exState [exItem "1" "a" true])
    = (exState [exItem "1" "a" true], None).
Proof.
  split.
  - apply completeAll_noop. by left.
  - apply completeAll_noop. by right.
Defined.

(** ** Completion reported by the push channel *)

Lemma receive_complete_idle (p : Props) (e : ProgressEvent) (s : State) :
  completedCount e = totalCount e -> 0 < totalCount e ->
  (listIdMatches p (updatedListId e) = true \/ Idle s) ->
  Idle (receive p e s).
Proof.
  intros Hc Ht H. unfold receive, ReceiveTodoCompletionUpdate.
  destruct (listIdMatches p (updatedListId e)).
  - rewrite Hc, Z.eqb_refl. apply Z.ltb_lt in Ht as ->. by cbn.
  - by destruct H.
Qed.

Lemma receive_frame (p : Props) (e : ProgressEvent) (s : State) :
  error (receive p e s) = error s /\
  intervals (receive p e s) = intervals s /\
  pollingIntervalRef (receive p e s) = pollingIntervalRef s.
Proof.
  unfold receive, ReceiveTodoCompletionUpdate.
  repeat case_match; by cbn.
Qed.

(** C2. A progress event for the viewed list with
    [completedCount = totalCount > 0] leaves the bulk operation idle and
    the progress cleared, from any state (in particular from Running); any
    number of further events with the same counts keep it so, and none of
    these events touches the error status or the timers. *)
Theorem progress_complete_idles (p : Props) (e : ProgressEvent) (s : State)
    (strays : list ProgressEvent) :
  listIdMatches p (updatedListId e) = true ->
  completedCount e = totalCount e -> 0 < totalCount e ->
  (forall e', e' ∈ strays ->
     completedCount e' = completedCount e /\ totalCount e' = totalCount e) ->
  Idle (receive p e s) /\
  Idle (receiveAll p strays (receive p e s)) /\
  error (receiveAll p strays (receive p e s)) = error s /\
  intervals (receiveAll p strays (receive p e s)) = intervals s.
Proof.
  intros Hm Hc Ht Hs.
  assert (Idle (receive p e s)) as H0 by (apply receive_complete_idle; auto).
  split; [done|].
  destruct (receive_frame p e s) as (He & Hi & _).
  revert H0 He Hi. generalize (receive p e s) as s0.
  unfold receiveAll.
  induction strays as [|e' es IH]; intros s0 H0 He Hi; cbn; [done|].
  destruct (Hs e') as [Hc' Ht']; [by left|].
  destruct (receive_frame p e' s0) as (He' & Hi' & _).
  apply IH.
  - intros e'' Hin. apply Hs. by right.
  - apply receive_complete_idle; [congruence|lia|by right].
  - congruence.
  - congruence.
Qed.

Lemma progress_complete_idles_witness :
  let p := exProps websocket in
  let e := mkEvent (lidNumber 5) (Some "2") 2 2 in
  let s := (handleCompleteAll p (exState [exItem "1" "a" true; exItem "2" "b" false])).1 in
  isCompletingAll s = true /\
  Idle (receive p e s) /\
  Idle (receiveAll p [e; mkEvent (lidString " 5 ") None 2 2] (receive p e s)).
Proof.
  intros p e s. split; [reflexivity|].
  destruct (progress_complete_idles p e s [e; mkEvent (lidString " 5 ") None 2 2])
    as (H1 & H2 & _); try done.
  intros e' He'.
  repeat (apply elem_of_cons in He' as [->|He']; [done|]).
  by apply elem_of_nil in He'.
Defined.

(** ** The poll driver *)

Lemma reachable_tracked p s inflight : reachable p (s, inflight) -> timersTracked s.
Proof. intros R. by destruct (reachable_invariant p _ R). Qed.

Lemma reachable_noProgress p s inflight :
  reachable p (s, inflight) -> mode p = vanilla -> completionProgress s = None.
Proof. intros R. by destruct (reachable_invariant p _ R). Qed.

Lemma stopPolling_ref s : pollingIntervalRef (stopPolling s) = None.
Proof. unfold stopPolling. by destruct (pollingIntervalRef s) eqn:E. Qed.

Lemma stopPolling_items s : items (stopPolling s) = items s.
Proof. unfold stopPolling. by destruct (pollingIntervalRef s). Qed.

Lemma stopPolling_error s : error (stopPolling s) = error s.
Proof. unfold stopPolling. by destruct (pollingIntervalRef s). Qed.

(** The component right after mounting, as a reachable configuration. *)
Lemma reachable_mounted p : reachable p (initialState, [AwaitFetch byEffect]).
Proof. unfold reachable. rewrite mounted_initial. apply rtc_refl. Qed.

(** C3. In poll mode, a polled result that is non-empty with every item
    completed stops the recurring fetch (no interval timer left, the ref
    cleared) and returns the bulk operation to idle; a polled result that
    is empty or contains an incomplete item leaves the timers and the
    running flag as they were.  Either way the result replaces the items. *)
Theorem poll_result_completion (p : Props) (s : State) (inflight : list Pending)
    (data : list TodoListItem) :
  mode p = vanilla -> reachable p (s, inflight) ->
  let s' := (resume p (AwaitFetch byPolling) (Some data) s).1 in
  items s' = data /\
  (data <> [] -> (forall it, it ∈ data -> completed it = true) ->
     intervals s' = [] /\ pollingIntervalRef s' = None /\ Idle s') /\
  (data = [] \/ (exists it, it ∈ data /\ completed it = false) ->
     intervals s' = intervals s /\ pollingIntervalRef s' = pollingIntervalRef s /\
     isCompletingAll s' = isCompletingAll s).
Proof.
  intros Hm R. cbn. unfold fetchItems_ok, isVanilla. rewrite Hm. cbn.
  pose proof (reachable_tracked _ _ _ R) as T.
  pose proof (reachable_noProgress _ _ _ R Hm) as N.
  split; [repeat case_match; cbn; by rewrite ?stopPolling_items|]. split.
  - intros Hne Hall.
    assert ((0 <? Z.of_nat (length data)) = true) as ->.
    { apply Z.ltb_lt. destruct data; [done|]. cbn. lia. }
    rewrite (proj2 (every_spec completed data) Hall). cbn.
    assert (timersTracked (setItems data s)) as T' by auto with tracked.
    destruct (stopPolling_stops _ T') as [E1 E2].
    repeat split; try done.
    cbn. by rewrite stopPolling_progress.
  - intros [-> | (it & Hin & Hc)]; [done|].
    assert (every completed data = false) as ->.
    { destruct (every completed data) eqn:E; [|done].
      rewrite (proj1 (every_spec _ _) E it Hin) in Hc. done. }
    by rewrite andb_false_r.
Qed.

(** A run of the system: the initial fetch returns [its], the user presses
    "Complete All", the guard lets the handler pass, and the trigger
    request is in flight. *)
Lemma reachable_pressed (m : Mode) (its : list TodoListItem) :
  let p := exProps m in
  (handleCompleteAll p (exState its)).2 = Some AwaitCompleteAll ->
  reachable p ((handleCompleteAll p (exState its)).1, [AwaitCompleteAll]).
Proof.
  intros p H. unfold reachable.
  eapply rtc_l.
  { rewrite mounted_initial.
    apply (step_settle p (AwaitFetch byEffect) (Some its)
             initialState [] [] (exState its) None).
    by destruct m. }
  eapply rtc_l; [|apply rtc_refl].
  apply (step_act p onCompleteAll (exState its) []
           (handleCompleteAll p (exState its)).1
           (Some AwaitCompleteAll)); [exact I|].
  unfold act. rewrite <- H. by destruct (handleCompleteAll p (exState its)).
Qed.

Lemma reachable_running (m : Mode) :
  let p := exProps m in
  reachable p ((handleCompleteAll p (exState [exItem "1" "a" false])).1,
               [AwaitCompleteAll]).
Proof. apply reachable_pressed. by destruct m. Qed.

(** The same run one step further, in vanilla mode: the trigger request
    was accepted and the polling timer is active. *)
Lemma reachable_polling :
  let p := exProps vanilla in
  let s1 := (handleCompleteAll p (exState [exItem "1" "a" false])).1 in
  reachable p ((resume p AwaitCompleteAll (Some tt) s1).1, []).
Proof.
  intros p s1.
  eapply rtc_r; [apply (reachable_running vanilla)|].
  by apply (step_settle p AwaitCompleteAll (Some tt) s1 [] []
              (resume p AwaitCompleteAll (Some tt) s1).1 None).
Qed.

(** The statement of C3 at the polling state: the bulk operation is
    running with timer 0 active, and the polled result has every item
    completed. *)
Lemma poll_result_completion_witness :
  let p := exProps vanilla in
  let s1 := (handleCompleteAll p (exState [exItem "1" "a" false])).1 in
  let s := (resume p AwaitCompleteAll (Some tt) s1).1 in
  let s' := (resume p (AwaitFetch byPolling) (Some [exItem "1" "a" true]) s).1 in
  (isCompletingAll s = true /\ intervals s = [0%nat]) /\
  intervals s' = [] /\ pollingIntervalRef s' = None /\ Idle s'.
Proof.
  intros p s1 s s'. split; [by split|].
  destruct (poll_result_completion p s [] [exItem "1" "a" true] eq_refl
              reachable_polling) as (_ & H & _).
  apply H; [done|].
  intros it Hit. apply list_elem_of_singleton in Hit as ->. reflexivity.
Defined.

(** The [catch] block of a fetch made by the polling timer, in a reachable
    state: polling stopped, no bulk operation, the polling error set, and
    nothing further awaited by the handler itself. *)
Lemma fetchItems_fail_polling (p : Props) (s : State) (inflight : list Pending) :
  mode p = vanilla -> reachable p (s, inflight) ->
  let r := resume p (AwaitFetch byPolling) None s in
  intervals r.1 = [] /\ pollingIntervalRef r.1 = None /\ Idle r.1 /\
  error r.1 = Some "Failed to fetch list items during polling." /\
  r.2 = None.
Proof.
  intros Hm R. cbn. unfold fetchItems_fail. cbn.
  pose proof (reachable_tracked _ _ _ R) as T.
  set (s0 := setError _ s).
  assert (timersTracked s0) as T' by (unfold s0; auto with tracked).
  destruct (stopPolling_stops _ T') as [E1 E2].
  repeat split; cbn; auto.
  by rewrite stopPolling_error.
Qed.

(** The [catch] block of [handleCompleteAll], in a reachable state. *)
Lemma handleCompleteAll_fail_spec (p : Props) (s : State) (inflight : list Pending) :
  reachable p (s, inflight) ->
  let r := resume p AwaitCompleteAll None s in
  Idle r.1 /\
  error r.1 = Some (match mode p with
                    | websocket => "Failed to initiate complete all items (websocket mode)."
                    | vanilla => "Failed to initiate complete all items (vanilla mode)."
                    end) /\
  r.2 = None /\
  intervals r.1 = intervals s /\ pollingIntervalRef r.1 = pollingIntervalRef s.
Proof.
  intros R. cbn. unfold handleCompleteAll_fail.
  pose proof (reachable_noProgress _ _ _ R) as N.
  destruct (mode p); cbn; repeat split; auto.
Qed.

(** ** The push driver's handler and the collection *)

(** What the handler does to the collection: nothing unless the event is
    for the viewed list and carries a non-empty item id. *)
Lemma receive_items (p : Props) (e : ProgressEvent) (s : State) :
  items (receive p e s) =
    if listIdMatches p (updatedListId e) then
      match justCompletedItemId e with
      | Some j => if truthy j then markCompleted j (items s) else items s
      | None => items s
      end
    else items s.
Proof.
  unfold receive, ReceiveTodoCompletionUpdate.
  destruct (listIdMatches p (updatedListId e)); [|done].
  destruct (justCompletedItemId e) as [j|]; [destruct (truthy j)|];
    by destruct ((completedCount e =? totalCount e) && (0 <? totalCount e)).
Qed.

(** C8 (amended). The handler of a push event, on every state and every
    event.  An event for another list changes nothing.  An event for the
    viewed list that carries a non-empty item id leaves the collection
    unchanged if no item has the id or the first item having it is
    completed already; otherwise that item becomes the same item with
    [completed = true], and the length, the order and every other
    position are unchanged.  An event that carries no item id, or the
    empty one, leaves the collection unchanged.  Handling the same event
    a second time does not change the collection further. *)
Theorem receive_marks_item (p : Props) (e : ProgressEvent) (s : State) :
  (if listIdMatches p (updatedListId e) then
     match justCompletedItemId e with
     | Some j =>
         if truthy j then marksOnly j (items s) (items (receive p e s))
         else items (receive p e s) = items s
     | None => items (receive p e s) = items s
     end
   else receive p e s = s) /\
  items (receive p e (receive p e s)) = items (receive p e s).
Proof.
  split.
  - rewrite receive_items.
    destruct (listIdMatches p (updatedListId e)) eqn:M.
    + destruct (justCompletedItemId e) as [j|]; [|done].
      destruct (truthy j); [|done].
      destruct (markCompleted_spec j (items s)) as (H1 & H2 & _). by split.
    + unfold receive, ReceiveTodoCompletionUpdate. by rewrite M.
  - rewrite (receive_items p e (receive p e s)), (receive_items p e s).
    destruct (listIdMatches p (updatedListId e)); [|done].
    destruct (justCompletedItemId e) as [j|]; [|done].
    destruct (truthy j); [|done].
    apply markCompleted_spec.
Qed.

(** The statement of C8 while a bulk operation is running on three items,
    of which the first is completed: an event naming the second item marks
    it and nothing else; events naming the first item or an unknown id
    change nothing. *)
Lemma receive_marks_item_witness :
  let p := exProps websocket in
  let a := exItem "1" "a" true in
  let b := exItem "2" "b" false in
  let c := exItem "3" "c" false in
  let s := (handleCompleteAll p (exState [a; b; c])).1 in
  let ev j := mkEvent (lidNumber 5) (Some j) 1 3 in
  isCompletingAll s = true /\
  items (receive p (ev "2") s) = [a; withCompleted b true; c] /\
  items (receive p (ev "1") s) = [a; b; c] /\
  items (receive p (ev "9") s) = [a; b; c].
Proof.
  intros p a b c s ev. split; [reflexivity|].
  destruct (receive_marks_item p (ev "2") s) as [H2 _].
  destruct (receive_marks_item p (ev "1") s) as [H1 _].
  destruct (receive_marks_item p (ev "9") s) as [H9 _].
  change (marksOnly "2" [a; b; c] (items (receive p (ev "2") s))) in H2.
  change (marksOnly "1" [a; b; c] (items (receive p (ev "1") s))) in H1.
  change (marksOnly "9" [a; b; c] (items (receive p (ev "9") s))) in H9.
  split; [|split].
  - destruct H2 as [_ H2].
    specialize (H2 1%nat b eq_refl eq_refl).
    destruct H2 as (L & Hb & Ho).
    { intros [|k'] x Hlt Hx; [|lia]. by injection Hx as <-. }
    pose proof (Ho 0%nat ltac:(lia)) as H0.
    pose proof (Ho 2%nat ltac:(lia)) as H2'.
    destruct (items (receive p (ev "2") s)) as [|x0 [|x1 [|x2 [|]]]];
      try discriminate L.
    cbn in *. congruence.
  - destruct H1 as [_ H1].
    apply (H1 0%nat a eq_refl eq_refl). intros k' x Hlt. lia.
  - destruct H9 as [H9 _]. apply H9. intros it Hit.
    repeat (apply elem_of_cons in Hit as [->|Hit]; [discriminate|]).
    by apply elem_of_nil in Hit.
Defined.

(** C8 (counterexample). The handler tests the item id for truth before
    it updates the collection ([if (justCompletedItemId)]), so an event
    for the viewed list that carries the empty id does not mark the open
    item whose id is empty: the id is present, the item is not completed,
    and its flag stays false. *)
Lemma receive_skips_empty_id :
  let p := exProps websocket in
  let it := exItem "" "a" false in
  let s := (handleCompleteAll p (exState [it])).1 in
  let e := mkEvent (lidNumber 5) (Some "") 0 1 in
  reachable p (s, [AwaitCompleteAll]) /\
  isCompletingAll s = true /\
  listIdMatches p (updatedListId e) = true /\
  items s = [it] /\ id it = "" /\ completed it = false /\
  items (receive p e s) = [it] /\
  ~ marksOnly "" (items s) (items (receive p e s)).
Proof.
  intros p it s e.
  assert (items (receive p e s) = [it]) as R by reflexivity.
  repeat split; try reflexivity.
  - by apply (reachable_pressed websocket [it]).
  - intros [_ H]. specialize (H 0%nat it eq_refl eq_refl).
    destruct H as (_ & H & _); [intros k' x Hlt; lia|].
    rewrite R in H. discriminate H.
Qed.

(** ** The render after a handler *)

Lemma stopPolling_none s : pollingIntervalRef s = None -> stopPolling s = s.
Proof. unfold stopPolling. by intros ->. Qed.

Lemma stopPolling_fields s :
  items (stopPolling s) = items s /\ newItemDesc (stopPolling s) = newItemDesc s /\
  loading (stopPolling s) = loading s /\ error (stopPolling s) = error s /\
  isMocking (stopPolling s) = isMocking s /\
  isCompletingAll (stopPolling s) = isCompletingAll s /\
  editingItemId (stopPolling s) = editingItemId s /\
  editingItemDesc (stopPolling s) = editingItemDesc s /\
  completionProgress (stopPolling s) = completionProgress s.
Proof. unfold stopPolling. by destruct (pollingIntervalRef s). Qed.

(** What a run of the fetch effect does to the state, up to its [await]. *)
Lemma fetchEffect_spec (p : Props) (s : State) :
  let r := fetchEffect p s in
  r.2 = Some (AwaitFetch byEffect) /\
  error r.1 = None /\
  loading r.1 = (if isCompletingAll s then loading s else true) /\
  items r.1 = items s /\ isCompletingAll r.1 = isCompletingAll s /\
  isMocking r.1 = isMocking s /\ completionProgress r.1 = completionProgress s /\
  newItemDesc r.1 = newItemDesc s /\ editingItemId r.1 = editingItemId s /\
  editingItemDesc r.1 = editingItemDesc s /\
  match mode p with
  | vanilla => pollingIntervalRef r.1 = None /\ (timersTracked s -> intervals r.1 = [])
  | websocket => pollingIntervalRef r.1 = pollingIntervalRef s /\
                 intervals r.1 = intervals s
  end.
Proof.
  cbn zeta. unfold fetchEffect, fetchItems, isVanilla. cbn.
  destruct (mode p); cbn.
  - destruct (stopPolling_fields s) as (Hi & Hn & Hl & He & Hm & Hc & Hei & Hed & Hp).
    rewrite Hc.
    set (s1 := if negb (isCompletingAll s) then _ else _).
    assert (items s1 = items s /\ newItemDesc s1 = newItemDesc s /\
            isMocking s1 = isMocking s /\ isCompletingAll s1 = isCompletingAll s /\
            editingItemId s1 = editingItemId s /\
            editingItemDesc s1 = editingItemDesc s /\
            completionProgress s1 = completionProgress s /\
            loading s1 = (if isCompletingAll s then loading s else true) /\
            pollingIntervalRef s1 = None /\
            intervals s1 = intervals (stopPolling s)) as H.
    { unfold s1.
      destruct (isCompletingAll s); cbn; rewrite ?stopPolling_ref; repeat split;
        auto. }
    destruct H as (H1 & H2 & H3 & H4 & H5 & H6 & H7 & H8 & H9 & H10).
    assert (pollingIntervalRef (setError None s1) = None) as Hr by done.
    rewrite (stopPolling_none _ Hr). cbn.
    repeat split; auto.
    intros T. rewrite H10. by apply stopPolling_stops.
  - destruct (isCompletingAll s) eqn:E; cbn; repeat split; auto.
Qed.

Lemma commit_flip (p : Props) (before after : State) :
  isCompletingAll before <> isCompletingAll after ->
  commit p before after = fetchEffect p after.
Proof.
  intros H. unfold commit.
  destruct (isCompletingAll before), (isCompletingAll after); done.
Qed.

Lemma commit_same (p : Props) (before after : State) :
  isCompletingAll before = isCompletingAll after ->
  commit p before after = (after, None).
Proof. intros H. unfold commit. rewrite H. by destruct (isCompletingAll after). Qed.

(** C7 (the defect). In poll mode, while the bulk operation is running, a
    failed polling fetch does stop the recurring fetch and ends the bulk
    operation with progress cleared, and its [catch] block sets the
    polling error.  But the [catch] block also flips [isCompletingAll],
    which re-creates [fetchItems] and re-runs the fetch effect: by the
    next render the error is cleared again, the loading flag is set, and
    a new fetch of the items has been issued. *)
Theorem poll_failure_refetches (p : Props) (s : State) (inflight : list Pending) :
  mode p = vanilla -> reachable p (s, inflight) -> isCompletingAll s = true ->
  let caught := (resume p (AwaitFetch byPolling) None s).1 in
  let r := settle p (AwaitFetch byPolling) None s in
  error caught = Some "Failed to fetch list items during polling." /\
  intervals r.1 = [] /\ pollingIntervalRef r.1 = None /\ Idle r.1 /\
  error r.1 = None /\ loading r.1 = true /\
  r.2 = [AwaitFetch byEffect] /\
  request_of p (AwaitFetch byEffect) = getTodoListItems (listId p).
Proof.
  intros Hm R Hc. cbn zeta.
  destruct (fetchItems_fail_polling p s inflight Hm R) as (Hi & Hr & [Hf Hp] & He & Ho).
  unfold settle, turn.
  destruct (resume p (AwaitFetch byPolling) None s) as [s1 o1] eqn:E. cbn in *.
  subst o1.
  rewrite commit_flip by congruence.
  destruct (fetchEffect_spec p s1) as (E2 & E3 & E4 & _ & E5 & _ & E6 & _ & _ & _ & E7).
  destruct (fetchEffect p s1) as [s2 o2]. cbn in *. subst o2.
  rewrite Hm in E7. destruct E7 as [E7 E8].
  rewrite Hf in E4.
  repeat split; auto; try congruence.
  apply E8. unfold timersTracked. by rewrite Hi, Hr.
Qed.

Lemma poll_failure_refetches_witness :
  let p := exProps vanilla in
  let s1 := (handleCompleteAll p (exState [exItem "1" "a" false])).1 in
  let s := (resume p AwaitCompleteAll (Some tt) s1).1 in
  let r := settle p (AwaitFetch byPolling) None s in
  (isCompletingAll s = true /\ intervals s = [0%nat]) /\
  intervals r.1 = [] /\ error r.1 = None /\ r.2 = [AwaitFetch byEffect].
Proof.
  intros p s1 s r. split; [by split|].
  destruct (poll_failure_refetches p s [] eq_refl reachable_polling eq_refl)
    as (_ & H1 & _ & _ & H2 & _ & H3 & _).
  by repeat split.
Defined.

(** C6 (the defect). When the trigger request of a running bulk operation
    fails, in either mode, the operation does end with no progress shown
    and the trigger is not issued again, and the [catch] block sets the
    error of the mode.  But the [catch] block also flips
    [isCompletingAll], which re-creates [fetchItems] and re-runs the fetch
    effect: by the next render the error is cleared again, the loading
    flag is set, and a fetch of the items has been issued. *)
Theorem trigger_failure_error_erased (p : Props) (s : State)
    (inflight : list Pending) :
  reachable p (s, inflight) -> isCompletingAll s = true ->
  let caught := (resume p AwaitCompleteAll None s).1 in
  let r := settle p AwaitCompleteAll None s in
  error caught =
    Some (match mode p with
          | websocket => "Failed to initiate complete all items (websocket mode)."
          | vanilla => "Failed to initiate complete all items (vanilla mode)."
          end) /\
  Idle r.1 /\ error r.1 = None /\ loading r.1 = true /\
  r.2 = [AwaitFetch byEffect] /\
  request_of p (AwaitFetch byEffect) = getTodoListItems (listId p).
Proof.
  intros R Hc. cbn zeta.
  destruct (handleCompleteAll_fail_spec p s inflight R) as ([Hf Hp] & He & Ho & _).
  unfold settle, turn.
  destruct (resume p AwaitCompleteAll None s) as [s1 o1] eqn:E. cbn in *.
  subst o1.
  rewrite commit_flip by congruence.
  destruct (fetchEffect_spec p s1) as (E2 & E3 & E4 & _ & E5 & _ & E6 & _).
  destruct (fetchEffect p s1) as [s2 o2]. cbn in *. subst o2.
  rewrite Hf in E4.
  repeat split; auto; congruence.
Qed.

Lemma trigger_failure_error_erased_witness :
  let p := exProps websocket in
  let s := (handleCompleteAll p (exState [exItem "1" "a" false])).1 in
  let r := settle p AwaitCompleteAll None s in
  isCompletingAll s = true /\
  error (resume p AwaitCompleteAll None s).1
    = Some "Failed to initiate complete all items (websocket mode)." /\
  error r.1 = None /\ r.2 = [AwaitFetch byEffect].
Proof.
  intros p s r. split; [reflexivity|].
  destruct (trigger_failure_error_erased p s [AwaitCompleteAll]
              (reachable_running websocket) eq_refl) as (H1 & _ & H2 & _ & H3 & _).
  by repeat split.
Defined.

(** A manual fetch in a reachable state of poll mode: no timer survives
    its start, and its success continuation leaves the timers and the
    running flag of the state it runs in as they are. *)
Lemma manual_fetch_timers (p : Props) (s : State)
    (inflight : list Pending) (caller : FetchCaller) (closureCompleting : bool)
    (data : list TodoListItem) :
  mode p = vanilla -> reachable p (s, inflight) ->
  calledDuringPolling caller = false ->
  let s1 := (fetchItems p closureCompleting caller s).1 in
  (intervals s1 = [] /\ pollingIntervalRef s1 = None) /\
  forall s2,
    let s3 := (resume p (AwaitFetch caller) (Some data) s2).1 in
    intervals s3 = intervals s2 /\ pollingIntervalRef s3 = pollingIntervalRef s2 /\
    isCompletingAll s3 = isCompletingAll s2.
Proof.
  intros Hm R Hc. cbn zeta. split.
  - unfold fetchItems, isVanilla. rewrite Hc, Hm. cbn.
    pose proof (reachable_tracked _ _ _ R).
    match goal with
    | |- context [stopPolling ?x] => destruct (stopPolling_stops x) as [E1 E2]
    end; [destruct closureCompleting; cbn; auto with tracked|].
    by split.
  - intros s2. cbn. unfold fetchItems_ok. rewrite Hc, andb_false_r. cbn.
    by destruct caller.
Qed.

(** ** Manual fetches and the polling cadence *)

Lemma commit_cases (p : Props) (s s1 : State) :
  (isCompletingAll s = isCompletingAll s1 /\ commit p s s1 = (s1, None)) \/
  (isCompletingAll s <> isCompletingAll s1 /\ commit p s s1 = fetchEffect p s1).
Proof.
  unfold commit.
  destruct (isCompletingAll s), (isCompletingAll s1); cbn; auto.
Qed.

(** Every turn of a schedule is one or two steps of the transition
    system: the handler, then the fetch effect if the render forces it. *)
Lemma transition_steps (p : Props) (c c' : Config) :
  transition p c c' -> rtc (step p) c c'.
Proof.
  intros [a s inflight s' new Ha He E | pd r s before after s' new E].
  - unfold perform, turn in E. destruct (act p a s) as [s1 o1] eqn:A.
    destruct (commit_cases p s s1) as [[_ C] | [_ C]]; rewrite C in E.
    + simplify_eq. rewrite app_nil_r. apply rtc_once. by apply step_act with a.
    + destruct (fetchEffect p s1) as [s2 o2] eqn:F. simplify_eq.
      eapply rtc_l; [by eapply step_act|].
      rewrite app_assoc. apply rtc_once.
      by apply (step_act p onFetchEffect).
  - unfold settle, turn in E. destruct (resume p pd r s) as [s1 o1] eqn:A.
    destruct (commit_cases p s s1) as [[_ C] | [_ C]]; rewrite C in E.
    + simplify_eq. rewrite app_nil_r. apply rtc_once. by apply step_settle with r.
    + destruct (fetchEffect p s1) as [s2 o2] eqn:F. simplify_eq.
      eapply rtc_l; [by eapply step_settle|].
      rewrite !app_assoc. apply rtc_once.
      by apply (step_act p onFetchEffect).
Qed.

Lemma runs_reachable (p : Props) (c : Config) : runs p c -> reachable p c.
Proof.
  unfold runs, reachable. revert c. apply rtc_ind_r; [apply rtc_refl|].
  intros c0 c _ T R. etrans; [exact R|]. by apply transition_steps.
Qed.

(** What a handler can do to the two exclusive operations and to the
    timer reference, in vanilla mode. *)
Lemma act_summary (p : Props) (a : Action) (s s' : State) (o : option Pending) :
  mode p = vanilla -> a <> onFetchEffect -> enabled p a s ->
  act p a s = (s', o) ->
  (mockCount (option_list o) + (if isMocking s then 1 else 0)
     = if isMocking s' then 1 else 0)%nat /\
  (isCompletingAll s' = true ->
     (isCompletingAll s = false /\ o = Some AwaitCompleteAll) \/
     (isCompletingAll s = true /\ pollingIntervalRef s' = pollingIntervalRef s)).
Proof.
  intros Hm Ha He E. destruct p as [lid m]. cbn in Hm. subst m.
  destruct s as [? ? ? ? mocking completing ? ? ? ref ? ?].
  destruct a; try done; cbn in He; try discriminate He;
    unfold_handlers; unfold stopPolling, isVanilla, mockCount in *; cbn in *;
    destruct mocking, completing; cbn in *;
    repeat case_match; simplify_eq; cbn; split; auto; done.
Qed.

(** The same for a continuation.  None sets [isCompletingAll]. *)
Lemma resume_summary (p : Props) (pd : Pending) (r : option (Payload pd))
    (s s' : State) (o : option Pending) :
  mode p = vanilla ->
  isMocking s && isCompletingAll s = false ->
  (isMockFlow pd = true -> isMocking s = true) ->
  resume p pd r s = (s', o) ->
  (mockCount (option_list o) + (if isMocking s then 1 else 0)
     = (if isMocking s' then 1 else 0) + (if isMockFlow pd then 1 else 0))%nat /\
  (isCompletingAll s' = true ->
     isCompletingAll s = true /\
     ((pd = AwaitCompleteAll /\ pollingIntervalRef s' <> None) \/
      (pd <> AwaitCompleteAll /\ pollingIntervalRef s' = pollingIntervalRef s))).
Proof.
  intros Hm X M E. destruct p as [lid m]. cbn in Hm. subst m.
  destruct s as [? ? ? ? mocking completing ? ? ? ref ? ?].
  destruct pd as [[] | | | | | |]; destruct r;
    unfold_handlers;
    unfold handleCompleteAll_ok, stopPolling, setInterval, isVanilla, mockCount in *;
    cbn in *;
    destruct mocking, completing; cbn in *; try discriminate X;
    try (specialize (M eq_refl); discriminate M);
    repeat case_match; simplify_eq; cbn; split; auto;
    intros; split; auto; first [by left | by right].
Qed.

Lemma mockCount_app (l1 l2 : list Pending) :
  mockCount (l1 ++ l2)%list = (mockCount l1 + mockCount l2)%nat.
Proof. unfold mockCount. by rewrite List.filter_app, length_app. Qed.

Lemma mockCount_cons (pd : Pending) (l : list Pending) :
  mockCount (pd :: l) = ((if isMockFlow pd then 1 else 0) + mockCount l)%nat.
Proof. unfold mockCount. cbn. by destruct (isMockFlow pd). Qed.

(** The two facts a schedule keeps, for a turn started by a handler. *)
Lemma perform_invariant (p : Props) (a : Action) (s s' : State)
    (inflight new : list Pending) :
  mode p = vanilla -> a <> onFetchEffect -> enabled p a s ->
  perform p a s = (s', new) ->
  mockCount inflight = (if isMocking s then 1 else 0)%nat ->
  cadenceKept (s, inflight) ->
  mockCount (inflight ++ new)%list = (if isMocking s' then 1 else 0)%nat /\
  cadenceKept (s', (inflight ++ new)%list).
Proof.
  intros Hm Ha He E M K. unfold cadenceKept in *. cbn in *.
  unfold perform, turn in E. destruct (act p a s) as [s1 o1] eqn:A.
  destruct (act_summary p a s s1 o1 Hm Ha He A) as [M1 K1].
  rewrite mockCount_app.
  destruct (commit_cases p s s1) as [[F C] | [F C]]; rewrite C in E.
  - injection E as <- <-. rewrite app_nil_r. split; [lia|].
    intros Hc. destruct (K1 Hc) as [[_ ->] | [Hs Hr]].
    + right. apply elem_of_app. right. by left.
    + destruct (K Hs) as [N | N]; [left; by rewrite Hr|].
      right. apply elem_of_app. by left.
  - destruct (fetchEffect_spec p s1)
      as (E2 & _ & _ & _ & E5 & E6 & _).
    destruct (fetchEffect p s1) as [s2 o2]. cbn in E2, E5, E6. subst o2.
    injection E as <- <-.
    rewrite mockCount_app, E6. cbn. split; [lia|].
    rewrite E5. intros Hc. destruct (K1 Hc) as [[_ ->] | [Hs _]]; [|congruence].
    right. apply elem_of_app. right. by left.
Qed.

(** The same for a turn started by a remote call settling. *)
Lemma settle_invariant (p : Props) (pd : Pending) (r : option (Payload pd))
    (s s' : State) (before after new : list Pending) :
  mode p = vanilla ->
  isMocking s && isCompletingAll s = false ->
  settle p pd r s = (s', new) ->
  mockCount (before ++ pd :: after)%list = (if isMocking s then 1 else 0)%nat ->
  cadenceKept (s, (before ++ pd :: after)%list) ->
  mockCount (before ++ after ++ new)%list = (if isMocking s' then 1 else 0)%nat /\
  cadenceKept (s', (before ++ after ++ new)%list).
Proof.
  intros Hm X E M K. unfold cadenceKept in *. cbn in *.
  rewrite mockCount_app, mockCount_cons in M.
  assert (isMockFlow pd = true -> isMocking s = true) as Hpd.
  { intros Hf. rewrite Hf in M. destruct (isMocking s); [done|lia]. }
  unfold settle, turn in E. destruct (resume p pd r s) as [s1 o1] eqn:A.
  destruct (resume_summary p pd r s s1 o1 Hm X Hpd A) as [M1 K1].
  rewrite !mockCount_app.
  assert (forall x, isCompletingAll s1 = true ->
            pollingIntervalRef s1 <> None \/
            AwaitCompleteAll ∈ (before ++ after ++ x)%list) as Keep.
  { intros x Hc. destruct (K1 Hc) as [Hs [[_ N] | [Hne Hr]]]; [by left|].
    destruct (K Hs) as [N | N]; [left; by rewrite Hr|].
    right. apply elem_of_app in N as [N | N]; [apply elem_of_app; by left|].
    apply elem_of_cons in N as [N | N]; [congruence|].
    apply elem_of_app. right. apply elem_of_app. by left. }
  destruct (commit_cases p s s1) as [[F C] | [F C]]; rewrite C in E.
  - injection E as <- <-. rewrite app_nil_r. split; [lia|]. apply Keep.
  - destruct (fetchEffect_spec p s1)
      as (E2 & _ & _ & _ & E5 & E6 & _).
    destruct (fetchEffect p s1) as [s2 o2]. cbn in E2, E5, E6. subst o2.
    injection E as <- <-.
    rewrite mockCount_app, E6. cbn. split; [lia|].
    rewrite E5. intros Hc. destruct (K1 Hc) as [Hs _]. congruence.
Qed.

(** In every schedule of vanilla mode: the configuration is reachable, the
    mock flow has a call in flight exactly while [isMocking] is set, and
    while the bulk operation is running the timer is active or the
    trigger request has not settled yet. *)
Lemma runs_invariant (p : Props) (c : Config) :
  mode p = vanilla -> runs p c ->
  reachable p c /\
  mockCount c.2 = (if isMocking c.1 then 1 else 0)%nat /\
  cadenceKept c.
Proof.
  intros Hm R. split; [by apply runs_reachable|].
  revert c R. unfold runs. apply rtc_ind_r.
  { rewrite mounted_initial. split; [done|]. by intros ?. }
  intros c0 c R0 T [M K].
  destruct T as [a s inflight s' new Ha He E | pd r s before after s' new E].
  - by eapply perform_invariant.
  - eapply settle_invariant; eauto.
    apply runs_reachable in R0.
    by destruct (reachable_invariant_more _ _ R0).
Qed.

Lemma runs_perform (p : Props) (a : Action) (s : State)
    (inflight : list Pending) (c : Config) :
  runs p (s, inflight) -> a <> onFetchEffect -> enabled p a s ->
  c = ((perform p a s).1, (inflight ++ (perform p a s).2)%list) ->
  runs p c.
Proof.
  intros R Ha He ->. eapply rtc_r; [exact R|].
  apply transition_act with a; [done|done|]. by destruct (perform p a s).
Qed.

Lemma runs_settle (p : Props) (pd : Pending) (r : option (Payload pd))
    (s : State) (before after inflight : list Pending) (c : Config) :
  runs p (s, inflight) -> inflight = (before ++ pd :: after)%list ->
  c = ((settle p pd r s).1, (before ++ after ++ (settle p pd r s).2)%list) ->
  runs p c.
Proof.
  intros R -> ->. eapply rtc_r; [exact R|].
  apply transition_settle with r. by destruct (settle p pd r s).
Qed.

(** The schedule in which the initial fetch returns [its]. *)
Lemma runs_loaded (p : Props) (its : list TodoListItem) :
  runs p (exState its, []).
Proof.
  eapply (runs_settle p (AwaitFetch byEffect) (Some its) initialState [] []).
  - unfold runs. rewrite mounted_initial. apply rtc_refl.
  - done.
  - unfold settle, turn, commit, fetchItems_ok, exState; cbn.
    by rewrite andb_false_r.
Qed.

(** No handler starts a timer, and no continuation but the one that
    follows the acceptance of the trigger request. *)
Lemma act_no_start (p : Props) (a : Action) (s s' : State) (o : option Pending) :
  pollingIntervalRef s = None -> act p a s = (s', o) ->
  pollingIntervalRef s' = None.
Proof.
  intros H E.
  destruct s; cbn in H; subst.
  destruct a; unfold_handlers; unfold stopPolling, isVanilla in *; cbn in E;
    repeat case_match; simplify_eq; done.
Qed.

Lemma resume_no_start (p : Props) (pd : Pending) (r : option (Payload pd))
    (s s' : State) (o : option Pending) :
  pollingIntervalRef s = None -> resume p pd r s = (s', o) ->
  pollingIntervalRef s' <> None ->
  pd = AwaitCompleteAll /\ r <> None.
Proof.
  intros H E N.
  destruct pd; destruct r; try (split; [reflexivity|discriminate]);
    exfalso; apply N; clear N;
    destruct s; cbn in H; subst;
    unfold_handlers; unfold stopPolling, isVanilla in *; cbn in E;
    repeat case_match; simplify_eq; done.
Qed.

Lemma commit_no_start (p : Props) (s s1 : State) :
  pollingIntervalRef s1 = None -> pollingIntervalRef (commit p s s1).1 = None.
Proof.
  intros H. destruct (commit_cases p s s1) as [[_ ->] | [_ ->]]; [done|].
  destruct (fetchEffect_spec p s1) as (_ & _ & _ & _ & _ & _ & _ & _ & _ & _ & E).
  destruct (mode p); destruct E as [E _]; congruence.
Qed.

(** C5 (amended). In every schedule of vanilla mode: a manual fetch
    started now leaves no timer active; a manual fetch that succeeds now
    changes neither the timers nor the running flag, and starts nothing
    (the cadence is not restarted by it); the only turn that starts the
    timer is the acceptance of the trigger request, after which a timer is
    active, and no other turn of a schedule starts one; and while the bulk
    operation is running, the timer is active or the trigger request is
    still in flight. *)
Theorem manual_fetch_and_cadence (p : Props) (s : State)
    (inflight : list Pending) :
  mode p = vanilla -> runs p (s, inflight) ->
  (forall caller closureCompleting, calledDuringPolling caller = false ->
     let s1 := (fetchItems p closureCompleting caller s).1 in
     intervals s1 = [] /\ pollingIntervalRef s1 = None) /\
  (forall caller data, calledDuringPolling caller = false ->
     let r := settle p (AwaitFetch caller) (Some data) s in
     intervals r.1 = intervals s /\
     pollingIntervalRef r.1 = pollingIntervalRef s /\
     isCompletingAll r.1 = isCompletingAll s /\ r.2 = []) /\
  (let r := settle p AwaitCompleteAll (Some tt) s in
   pollingIntervalRef r.1 <> None /\ intervals r.1 <> [] /\
   isCompletingAll r.1 = isCompletingAll s /\ r.2 = []) /\
  (forall c', transition p (s, inflight) c' ->
     pollingIntervalRef s = None -> pollingIntervalRef c'.1 <> None ->
     AwaitCompleteAll ∈ inflight /\
     c'.1 = (settle p AwaitCompleteAll (Some tt) s).1) /\
  (isCompletingAll s = true ->
   pollingIntervalRef s <> None \/ AwaitCompleteAll ∈ inflight).
Proof.
  intros Hm R.
  destruct (runs_invariant p _ Hm R) as (Re & _ & K).
  pose proof (reachable_tracked _ _ _ Re) as T.
  split; [|split; [|split; [|split]]].
  - intros caller cc Hc.
    by destruct (manual_fetch_timers p s inflight caller cc [] Hm Re Hc).
  - intros caller data Hc. cbn zeta.
    destruct caller; try discriminate Hc; unfold settle, turn; cbn;
      unfold fetchItems_ok; cbn; rewrite andb_false_r; cbn;
      (rewrite commit_same by done); by cbn.
  - cbn zeta. unfold settle, turn. cbn.
    assert (isCompletingAll (handleCompleteAll_ok p s) = isCompletingAll s) as F.
    { unfold handleCompleteAll_ok. rewrite Hm.
      by destruct (pollingIntervalRef s). }
    rewrite (commit_same p s _) by done. cbn.
    pose proof (handleCompleteAll_ok_tracked p s T) as T'.
    assert (pollingIntervalRef (handleCompleteAll_ok p s) <> None) as N.
    { unfold handleCompleteAll_ok. rewrite Hm.
      by destruct (pollingIntervalRef s) eqn:Er; cbn; rewrite ?Er. }
    repeat split; auto.
    unfold timersTracked in T'. rewrite T'.
    by destruct (pollingIntervalRef (handleCompleteAll_ok p s)).
  - intros c' Tr H0 N. inversion Tr as [a s0 i0 s' new Ha He E | pd r s0 before after s' new E];
      subst; cbn in N.
    + exfalso. apply N. unfold perform, turn in E.
      destruct (act p a s) as [s1 o1] eqn:A.
      pose proof (commit_no_start p s s1 (act_no_start _ _ _ _ _ H0 A)) as C.
      destruct (commit p s s1) as [s2 o2]. by simplify_eq.
    + unfold settle, turn in E.
      destruct (resume p pd r s) as [s1 o1] eqn:A.
      destruct (pollingIntervalRef s1) as [t|] eqn:Er.
      * destruct (resume_no_start p pd r s s1 o1 H0 A) as [-> Hr];
          [by rewrite Er|].
        split; [apply elem_of_app; right; by left|].
        destruct r as [[]|]; [|done].
        cbn in A. injection A as <- <-. unfold settle, turn. cbn.
        destruct (commit p s (handleCompleteAll_ok p s)) as [s2 o2].
        by injection E as <- _.
      * exfalso. apply N.
        pose proof (commit_no_start p s s1 Er) as C.
        destruct (commit p s s1) as [s2 o2]. by simplify_eq.
  - exact K.
Qed.

Lemma manual_fetch_and_cadence_witness :
  let p := exProps vanilla in
  let data := [exItem "1" "a" false] in
  let c2 := perform p onCompleteAll (exState data) in
  let c3 := settle p (AwaitFetch byEffect) None c2.1 in
  let c4 := perform p onMockData c3.1 in
  let c5 := settle p AwaitCompleteAll (Some tt) c4.1 in
  let s1 := (fetchItems p false byMock c5.1).1 in
  (intervals c5.1 = [0%nat] /\ isMocking c5.1 = true) /\
  intervals s1 = [] /\ pollingIntervalRef s1 = None.
Proof.
  intros p data c2 c3 c4 c5 s1.
  assert (runs p (c5.1, [AwaitFetch byEffect; AwaitMock])) as R.
  { eapply (runs_settle p AwaitCompleteAll (Some tt) c4.1 []
              [AwaitFetch byEffect; AwaitMock]);
      [|reflexivity|reflexivity].
    eapply (runs_perform p onMockData c3.1 [AwaitCompleteAll; AwaitFetch byEffect]);
      [|done|exact I|reflexivity].
    eapply (runs_settle p (AwaitFetch byEffect) None c2.1 [AwaitCompleteAll] []);
      [|reflexivity|reflexivity].
    eapply (runs_perform p onCompleteAll (exState data) []);
      [apply runs_loaded|done|exact I|reflexivity]. }
  split; [by split|].
  destruct (manual_fetch_and_cadence p c5.1 _ eq_refl R) as (A & _).
  apply (A byMock false eq_refl).
Defined.

(** C5 (counterexample). Vanilla mode, one open item.  Pressing
    "Complete All" starts the bulk operation, and the render that follows
    re-runs the fetch effect: a manual fetch.  That fetch succeeds while
    the trigger request is still in flight.  The bulk operation is then
    running and no timer is active: the manual fetch restarted nothing.
    A timer exists only once the trigger request is accepted. *)
Lemma manual_fetch_success_restarts_nothing :
  let p := exProps vanilla in
  let data := [exItem "1" "a" false] in
  let c2 := perform p onCompleteAll (exState data) in
  let c3 := settle p (AwaitFetch byEffect) (Some data) c2.1 in
  runs p (exState data, []) /\
  c2.2 = [AwaitCompleteAll; AwaitFetch byEffect] /\
  runs p (c3.1, [AwaitCompleteAll]) /\
  isCompletingAll c3.1 = true /\
  intervals c3.1 = [] /\ pollingIntervalRef c3.1 = None /\ c3.2 = [].
Proof.
  intros p data c2 c3.
  split; [apply runs_loaded|]. split; [reflexivity|]. split; [|by repeat split].
  eapply (runs_settle p (AwaitFetch byEffect) (Some data) c2.1 [AwaitCompleteAll] []);
    [|reflexivity|reflexivity].
  eapply (runs_perform p onCompleteAll (exState data) []);
    [apply runs_loaded|done|exact I|reflexivity].
Qed.


(** ** Roll-back of the optimistic mutations *)

Lemma find_Some_elem {A} (f : A -> bool) (l : list A) (x : A) :
  find f l = Some x -> x ∈ l /\ f x = true.
Proof.
  induction l as [|a l IH]; cbn; [done|].
  destruct (f a) eqn:Fa.
  - intros [= <-]. split; [by left|done].
  - intros H. destruct (IH H). split; [by right|done].
Qed.

Lemma untoggle_toggle (item : TodoListItem) (its : list TodoListItem) :
  item ∈ its -> uniqueIds its ->
  untoggleItems (id item) (completed item) (toggleItems (id item) its) = its.
Proof.
  intros Hin ND. unfold untoggleItems, toggleItems.
  rewrite List.map_map. apply map_id_ext. intros x Hx.
  cbn beta. destruct (seq (id x) (id item)) eqn:E; cbn; rewrite ?E; [|done].
  apply seq_eq in E. rewrite <- (unique_id its x item ND Hx Hin E).
  by destruct x.
Qed.

Lemma describe_original (itemId : string) (cur : TodoListItem)
    (its : list TodoListItem) :
  cur ∈ its -> id cur = itemId -> uniqueIds its ->
  describeItems itemId (description cur) its = its.
Proof.
  intros Hin Hid ND. unfold describeItems. apply map_id_ext. intros x Hx.
  destruct (seq (id x) itemId) eqn:E; [|done].
  apply seq_eq in E.
  rewrite <- (unique_id its x cur ND Hx Hin) by congruence.
  apply withDescription_same.
Qed.

Lemma filter_out_appended (tempId : string) (new : TodoListItem)
    (its : list TodoListItem) :
  id new = tempId -> (forall it, it ∈ its -> id it <> tempId) ->
  List.filter (fun item => negb (seq (id item) tempId)) (its ++ [new]) = its.
Proof.
  intros Hid Hfresh. rewrite List.filter_app. cbn.
  rewrite Hid, seq_refl. cbn. rewrite app_nil_r.
  apply filter_id_ext. intros x Hx. apply negb_true_iff, seq_neq. auto.
Qed.

(** C1 (as the code has it). When the remote call of an optimistic mutation
    fails, the items after the roll-back equal the items before the
    optimistic change in these cases: for delete and edit-description,
    whatever state the failure finds (their roll-back writes back the
    captured collection); for create and toggle-completion, when the
    collection was not changed between the optimistic step and the
    roll-back.  This relies on the provisional id being new to the
    collection (create) and on ids being unique (toggle, edit). *)
Theorem rollback_restores_items (p : Props) (a : Action) (s s1 : State)
    (pd : Pending) :
  isOptimisticMutation a = true ->
  act p a s = (s1, Some pd) ->
  rollbackAssumption a s ->
  forall s2, restoresCaptured a = true \/ items s2 = items s1 ->
    items (resume p pd None s2).1 = items s.
Proof.
  intros Hmut Hact Hpre s2 Hs2.
  destruct a; try discriminate; cbn in Hact, Hpre, Hs2.
  - (* create *)
    unfold handleAddItem in Hact.
    destruct (negb (truthy (trim (newItemDesc s))) || isCompletingAll s || isMocking s);
      [done|].
    injection Hact as <- <-. destruct Hs2 as [|Hs2]; [done|].
    cbn in *. rewrite Hs2. by apply filter_out_appended.
  - (* toggle *)
    unfold handleToggleComplete in Hact.
    destruct (isCompletingAll s || isMocking s || isEditing s (id item)); [done|].
    injection Hact as <- <-. destruct Hs2 as [|Hs2]; [done|].
    destruct Hpre as [Hin ND].
    cbn in *. rewrite Hs2. by apply untoggle_toggle.
  - (* delete *)
    unfold handleDeleteItem in Hact.
    destruct (isCompletingAll s || isMocking s || isEditing s itemId); [done|].
    by injection Hact as <- <-.
  - (* edit description *)
    unfold handleUpdateItemDesc in Hact.
    destruct (find (fun i => seq (id i) itemId) (items s)) as [cur|] eqn:F; [|done].
    destruct (isCompletingAll s || isMocking s
              || negb (truthy (trim (editingItemDesc s)))
              || seq (editingItemDesc s) (description cur)); [done|].
    injection Hact as <- <-. cbn.
    apply find_Some_elem in F as [Hin Hid]. apply seq_eq in Hid.
    by apply describe_original.
Qed.

Lemma rollback_restores_items_witness :
  let p := exProps vanilla in
  let a := exItem "1" "a" false in
  let s := exState [a; exItem "2" "b" true] in
  let s1 := (handleToggleComplete a s).1 in
  items s1 = [withCompleted a true; exItem "2" "b" true] /\
  items (resume p (AwaitToggle "1" false) None s1).1 = items s.
Proof.
  intros p a s s1. split; [reflexivity|].
  apply (rollback_restores_items p (onToggle a) s s1 (AwaitToggle "1" false)
           eq_refl eq_refl).
  - split; [by left|].
    unfold uniqueIds. cbn.
    apply NoDup_cons. split; [|apply NoDup_singleton].
    intros Hin. by apply list_elem_of_singleton in Hin.
  - by right.
Defined.

(** C1 as stated fails under interleaving: an item is created
    optimistically, another item is toggled (and that call succeeds), then
    the creation fails.  The roll-back removes the provisional item only,
    so the collection differs from the one before the creation. *)
Lemma rollback_after_interleaving_differs :
  let p := exProps vanilla in
  let a := exItem "1" "a" false in
  let s0 := setNewItemDesc "b" (exState [a]) in
  let s1 := (handleAddItem p 0 s0).1 in
  let s2 := (handleToggleComplete a s1).1 in
  let s3 := (resume p (AwaitToggle "1" false) (Some tt) s2).1 in
  let s4 := (resume p (AwaitAdd (tempIdAt 0) "b") None s3).1 in
  (handleAddItem p 0 s0).2 = Some (AwaitAdd (tempIdAt 0) "b") /\
  (handleToggleComplete a s1).2 = Some (AwaitToggle "1" false) /\
  items s0 = [a] /\
  items s4 = [withCompleted a true] /\
  items s4 <> items s0.
Proof. by repeat split. Qed.

(** * Further properties of the code *)

(** ** Invariants of the detail view *)

(** X1. At most one polling timer is ever active, it is the one
    [pollingIntervalRef] holds, and in websocket mode there is none. *)
Theorem at_most_one_timer (p : Props) (s : State) (inflight : list Pending) :
  reachable p (s, inflight) ->
  (length (intervals s) <= 1)%nat /\
  (forall t, t ∈ intervals s <-> pollingIntervalRef s = Some t) /\
  (mode p = websocket -> intervals s = []).
Proof.
  intros R.
  pose proof (reachable_tracked _ _ _ R) as T.
  destruct (reachable_invariant_more _ _ R) as [W _]. cbn in W.
  unfold timersTracked in T. rewrite T.
  split; [|split].
  - destruct (pollingIntervalRef s); cbn; lia.
  - intros t. destruct (pollingIntervalRef s) as [u|]; cbn.
    + rewrite list_elem_of_singleton. split; congruence.
    + split; [intros H; by apply elem_of_nil in H|done].
  - intros Hm. by rewrite (W Hm).
Qed.

Lemma at_most_one_timer_witness :
  let p := exProps vanilla in
  let s := (handleCompleteAll p (exState [exItem "1" "a" false])).1 in
  (length (intervals s) <= 1)%nat.
Proof.
  intros p s.
  by destruct (at_most_one_timer p s [AwaitCompleteAll] (reachable_running vanilla)).
Defined.

(** X2. Mock-data generation and the bulk operation exclude each other:
    [isMocking] and [isCompletingAll] are never both true. *)
Theorem exclusive_operations (p : Props) (s : State) (inflight : list Pending) :
  reachable p (s, inflight) ->
  isMocking s && isCompletingAll s = false.
Proof. intros R. by destruct (reachable_invariant_more _ _ R). Qed.

Lemma exclusive_operations_witness :
  let p := exProps websocket in
  let s := (handleCompleteAll p (exState [exItem "1" "a" false])).1 in
  isCompletingAll s = true /\ isMocking s && isCompletingAll s = false.
Proof.
  intros p s. split; [reflexivity|].
  apply (exclusive_operations p s [AwaitCompleteAll] (reachable_running websocket)).
Defined.

(** X3. In vanilla mode no progress object is ever set: the progress
    display belongs to websocket mode only. *)
Theorem vanilla_never_has_progress (p : Props) (s : State) (inflight : list Pending) :
  reachable p (s, inflight) -> mode p = vanilla ->
  completionProgress s = None.
Proof. apply reachable_noProgress. Qed.

Lemma vanilla_never_has_progress_witness :
  let p := exProps vanilla in
  completionProgress (handleCompleteAll p (exState [exItem "1" "a" false])).1 = None.
Proof.
  intros p.
  apply (vanilla_never_has_progress p _ [AwaitCompleteAll]
           (reachable_running vanilla) eq_refl).
Defined.

(** ** Guards of the handlers and the disabled controls *)

Lemma guard_busy (x c m : bool) : c || m = true -> x || c || m = true.
Proof. by destruct x, c, m. Qed.

(** X4. While a bulk operation or mock generation is running, no user
    action issues a remote call or changes the items, the error status,
    the two busy flags, the progress, the timers or the new-item draft. *)
Theorem busy_blocks_user_mutations (p : Props) (a : Action) (s : State) :
  isCompletingAll s || isMocking s = true -> isUserMutation a = true ->
  let r := act p a s in
  r.2 = None /\ items r.1 = items s /\ error r.1 = error s /\
  isCompletingAll r.1 = isCompletingAll s /\ isMocking r.1 = isMocking s /\
  completionProgress r.1 = completionProgress s /\
  intervals r.1 = intervals s /\ newItemDesc r.1 = newItemDesc s.
Proof.
  intros Hb Ha.
  destruct a; try discriminate; cbn; unfold_handlers.
  - rewrite (guard_busy _ _ _ Hb). by cbn.
  - rewrite Hb. by cbn.
  - rewrite Hb. by cbn.
  - rewrite Hb. by cbn.
  - destruct (find _ _); [|by cbn]. rewrite Hb. by cbn.
  - rewrite orb_comm, Hb. by cbn.
  - rewrite Hb. by cbn.
Qed.

Lemma busy_blocks_user_mutations_witness :
  let p := exProps websocket in
  let a := exItem "1" "a" false in
  let s := (handleCompleteAll p (exState [a])).1 in
  (act p (onDelete "1") s).2 = None /\ items (act p (onDelete "1") s).1 = [a].
Proof.
  intros p a s.
  destruct (busy_blocks_user_mutations p (onDelete "1") s eq_refl eq_refl)
    as (H1 & H2 & _).
  split; [exact H1 | exact H2].
Defined.

Lemma not_canPerformActions s :
  negb (canPerformActions s) = isCompletingAll s || isMocking s.
Proof. unfold canPerformActions. by destruct (isCompletingAll s), (isMocking s). Qed.

Lemma filter_incomplete_empty (its : list TodoListItem) :
  List.filter (fun item => negb (completed item)) its = [] <->
  every completed its = true.
Proof.
  induction its as [|a l IH]; cbn; [done|].
  destruct (completed a); cbn; [done|]. split; discriminate.
Qed.

(** X5. For every control whose handler checks again what its [disabled]
    attribute checks (the Mock, Complete All, Add, Save, Edit and Delete
    buttons, the checkbox of an open item, and blur and Enter in the inline
    editor), calling the handler while the control is disabled issues no
    remote call and leaves the state as it is, except that Save, blur and
    Enter leave edit mode.  The Back button, typing in the two inputs,
    Escape in the editor and the checkbox of a completed item are not
    covered: their handlers have no such check. *)
Theorem disabled_control_noop (p : Props) (c : Control) (s : State) :
  disabled c s = true -> handlerChecksAgain c = true ->
  exists a, handlerOf c = Some a /\
    act p a s =
      (match c with
       | btnSave _ | inputEditing _ _ => cancelEditing s
       | _ => s
       end, None).
Proof.
  intros Hd Hg.
  destruct c as [| | |v|now|item|item ev|item|item|item]; try discriminate Hg;
    cbn in Hd, Hg |- *; rewrite ?not_canPerformActions in Hd;
    try (destruct ev; try discriminate Hg);
    eexists; (split; [reflexivity|]); cbn; unfold_handlers.
  - rewrite orb_comm. by destruct (isCompletingAll s), (isMocking s).
  - destruct (isCompletingAll s || isMocking s) eqn:B; [done|].
    apply orb_false_elim in B as [C _]. rewrite C in Hd.
    cbn in Hd. rewrite orb_false_r in Hd.
    unfold allItemsCompleted in Hd. apply andb_true_iff in Hd as [_ Hd].
    by rewrite (proj2 (filter_incomplete_empty _) Hd).
  - by destruct (negb (truthy (trim (newItemDesc s)))),
         (isCompletingAll s), (isMocking s).
  - apply negb_true_iff in Hg. rewrite Hg, orb_false_r in Hd. by rewrite Hd.
  - destruct (find _ _); [|done]. by rewrite Hd.
  - destruct (find _ _); [|done]. by rewrite Hd.
  - destruct (find _ _); [|done].
    destruct (isCompletingAll s || isMocking s); [done|]. cbn in Hd.
    by rewrite Hd.
  - by rewrite Hd.
  - by rewrite Hd.
Qed.

Lemma disabled_control_noop_witness :
  let p := exProps vanilla in
  let a := exItem "1" "a" false in
  let s := (handleCompleteAll p (exState [a])).1 in
  act p (onToggle a) s = (s, None) /\
  act p (onSaveDesc "1") s = (cancelEditing s, None).
Proof.
  intros p a s. split.
  - destruct (disabled_control_noop p (chkCompleted a) s eq_refl eq_refl)
      as (x & [= <-] & H). exact H.
  - destruct (disabled_control_noop p (inputEditing a edBlur) s eq_refl eq_refl)
      as (x & [= <-] & H). exact H.
Defined.

(** X6. "Complete All" issues its trigger request exactly when its button
    is enabled and the collection is not empty (on an empty collection the
    button is enabled but the handler returns at once). *)
Theorem completeAll_acts_iff_enabled (p : Props) (s : State) :
  (handleCompleteAll p s).2 = Some AwaitCompleteAll <->
  disabled btnCompleteAll s = false /\ items s <> [].
Proof.
  cbn. rewrite not_canPerformActions. unfold handleCompleteAll, allItemsCompleted.
  destruct (isCompletingAll s) eqn:C; cbn; [split; [done|by intros [? _]]|].
  destruct (isMocking s) eqn:M; cbn; [split; [done|by intros [? _]]|].
  pose proof (filter_incomplete_empty (items s)) as F.
  destruct (List.filter (fun item => negb (completed item)) (items s)) as [|x l] eqn:E;
    cbn.
  - rewrite (proj1 F eq_refl), andb_true_r.
    split; [done|]. intros [H Hne]. destruct (items s); [done|]. by cbn in H.
  - assert (every completed (items s) = false) as ->.
    { destruct (every completed (items s)); [|done].
      by specialize (proj2 F eq_refl). }
    rewrite andb_false_r.
    split; [|by destruct (mode p)]. intros _. split; [done|].
    intros Hnil. by rewrite Hnil in E.
Qed.

Lemma completeAll_acts_iff_enabled_witness :
  (handleCompleteAll (exProps vanilla) (exState [exItem "1" "a" false])).2
    = Some AwaitCompleteAll.
Proof.
  apply completeAll_acts_iff_enabled. split; [reflexivity|discriminate].
Defined.

(** ** The optimistic handlers on the success path and at their edges *)

Lemma map_replace_appended (tempId : string) (new newItem : TodoListItem)
    (its : list TodoListItem) :
  id new = tempId -> (forall it, it ∈ its -> id it <> tempId) ->
  List.map (fun item => if seq (id item) tempId then newItem else item) (its ++ [new])
  = (its ++ [newItem])%list.
Proof.
  intros Hid Hfresh. rewrite List.map_app. cbn. rewrite Hid, seq_refl. f_equal.
  apply map_id_ext. intros x Hx.
  by rewrite (proj2 (seq_neq _ _) (Hfresh x Hx)).
Qed.

(** X7. When an optimistic creation succeeds, the provisional item is
    replaced in place by the item the server returned: every position
    holds what it held, except those carrying the provisional id, which
    hold the server item.  With a provisional id new to the collection and
    nothing interleaved, the result is the old collection followed by the
    server item. *)
Theorem add_success_replaces_provisional (p : Props) (now : Z) (s s1 : State)
    (tempId originalDesc : string) (newItem : TodoListItem) :
  handleAddItem p now s = (s1, Some (AwaitAdd tempId originalDesc)) ->
  let pd := AwaitAdd tempId originalDesc in
  tempId = tempIdAt now /\
  (forall s2,
     let s3 := (resume p pd (Some newItem) s2).1 in
     length (items s3) = length (items s2) /\
     forall k it, items s2 !! k = Some it ->
       items s3 !! k = Some (if seq (id it) tempId then newItem else it)) /\
  ((forall it, it ∈ items s -> id it <> tempId) ->
     items (resume p pd (Some newItem) s1).1 = (items s ++ [newItem])%list).
Proof.
  unfold handleAddItem.
  destruct (negb (truthy (trim (newItemDesc s))) || isCompletingAll s || isMocking s);
    [done|].
  intros [= <- <- <-]. cbn. split; [done|]. split.
  - intros s2. split; [apply length_map|].
    intros k it Hk.
    change (List.map ?f ?l) with (f <$> l). by rewrite list_lookup_fmap, Hk.
  - intros Hfresh. by apply map_replace_appended.
Qed.

Lemma add_success_replaces_provisional_witness :
  let p := exProps vanilla in
  let a := exItem "1" "a" false in
  let s := setNewItemDesc "b" (exState [a]) in
  let new := exItem "2" "b" false in
  items (resume p (AwaitAdd (tempIdAt 7) "b") (Some new) (handleAddItem p 7 s).1).1
  = [a; new].
Proof.
  intros p a s new.
  destruct (add_success_replaces_provisional p 7 s (handleAddItem p 7 s).1
              (tempIdAt 7) "b" new eq_refl) as (_ & _ & H).
  apply H. intros it Hit Hid.
  apply list_elem_of_singleton in Hit as ->. discriminate Hid.
Defined.

(** X8. Saving a description always leaves edit mode.  It issues no call
    and leaves the items alone when the component is busy, when no item
    has the id, when the draft is blank, or when the draft equals the
    current description of the item. *)
Theorem saving_cancels_or_updates (itemId : string) (s : State) :
  let r := handleUpdateItemDesc itemId s in
  (editingItemId r.1 = None /\ editingItemDesc r.1 = "") /\
  (isCompletingAll s || isMocking s = true \/
   (forall it, it ∈ items s -> id it <> itemId) \/
   truthy (trim (editingItemDesc s)) = false \/
   (exists cur, find (fun i => seq (id i) itemId) (items s) = Some cur /\
                editingItemDesc s = description cur) ->
   r = (cancelEditing s, None)).
Proof.
  cbn zeta. unfold handleUpdateItemDesc. split.
  - destruct (find _ _); [|done]. by destruct (_ || _).
  - intros H. destruct (find (fun i => seq (id i) itemId) (items s)) as [cur|] eqn:F;
      [|done].
    destruct H as [H | [H | [H | (c & Hc & H)]]].
    + by rewrite H.
    + apply find_Some_elem in F as [Hin Hid]. apply seq_eq in Hid.
      by destruct (H cur Hin).
    + rewrite H. cbn. by rewrite orb_true_r.
    + injection Hc as <-. rewrite H, seq_refl. by rewrite orb_true_r.
Qed.

Lemma saving_cancels_or_updates_witness :
  let s := setEditingItemDesc "   " (setEditingItemId (Some "1")
             (exState [exItem "1" "a" false])) in
  handleUpdateItemDesc "1" s = (cancelEditing s, None).
Proof.
  intros s.
  destruct (saving_cancels_or_updates "1" s) as [_ H].
  apply H. right. right. left. reflexivity.
Defined.

Lemma describe_frames itemId d its :
  sameButDescription itemId its (describeItems itemId d its).
Proof.
  unfold describeItems. split; [apply length_map|].
  intros k it Hk.
  exists (if seq (id it) itemId then withDescription it d else it). split.
  - change (List.map ?f ?l) with (f <$> l). by rewrite list_lookup_fmap, Hk.
  - destruct (seq (id it) itemId) eqn:E; cbn; repeat split; try done.
    intros Hne. by apply seq_neq in Hne; congruence.
Qed.

(** X9. When saving a description goes ahead, the optimistic step changes
    only the description of the items with that id, which becomes the
    draft; length, order and all other fields and items are as before, and
    the request carries the draft. *)
Theorem edit_changes_only_description (p : Props) (itemId : string)
    (s s1 : State) (pd : Pending) :
  handleUpdateItemDesc itemId s = (s1, Some pd) ->
  sameButDescription itemId (items s) (items s1) /\
  (forall it, it ∈ items s1 -> id it = itemId ->
     description it = editingItemDesc s) /\
  request_of p pd =
    updateTodoListItem (listId p) itemId (dataDescription (editingItemDesc s)).
Proof.
  unfold handleUpdateItemDesc.
  destruct (find _ _) as [cur|]; [|done].
  destruct (_ || _); [done|].
  intros [= <- <-]. cbn. split; [apply describe_frames|]. split; [|done].
  intros it Hin Hid. unfold describeItems in Hin.
  apply list_elem_of_In, in_map_iff in Hin as (x & Hx & _).
  destruct (seq (id x) itemId) eqn:E; subst it; [done|].
  apply seq_neq in E. done.
Qed.

Lemma edit_changes_only_description_witness :
  let p := exProps vanilla in
  let s := setEditingItemDesc "z" (setEditingItemId (Some "1")
             (exState [exItem "1" "a" false; exItem "2" "b" false])) in
  sameButDescription "1" (items s) (items (handleUpdateItemDesc "1" s).1).
Proof.
  intros p s.
  by destruct (edit_changes_only_description p "1" s (handleUpdateItemDesc "1" s).1
                 (AwaitUpdateDesc "1" (items s) "z" "a") eq_refl) as [H _].
Defined.

Lemma filter_length_unique (itemId : string) (its : list TodoListItem) :
  uniqueIds its -> (exists it, it ∈ its /\ id it = itemId) ->
  S (length (List.filter (fun item => negb (seq (id item) itemId)) its)) = length its.
Proof.
  unfold uniqueIds.
  induction its as [|a l IH]; cbn; intros ND (it & Hin & Hid).
  - by apply elem_of_nil in Hin.
  - apply NoDup_cons in ND as [Na ND].
    destruct (seq (id a) itemId) eqn:E; cbn.
    + apply seq_eq in E. f_equal. f_equal.
      apply filter_id_ext. intros x Hx. apply negb_true_iff, seq_neq.
      intros Hx'. apply Na. rewrite E, <- Hx'. by apply (list_elem_of_fmap_2 id).
    + f_equal. apply IH; [done|]. exists it. split; [|done].
      apply elem_of_cons in Hin as [->|Hin]; [|done].
      apply seq_neq in E. done.
Qed.

(** X10. An optimistic delete that goes ahead removes exactly the items
    with the given id: an item is in the new collection iff it was in the
    old one with another id, the survivors keep their order, and with
    unique ids and the id present the collection shrinks by one. *)
Theorem delete_removes_exactly (p : Props) (itemId : string) (s s1 : State)
    (pd : Pending) :
  handleDeleteItem itemId s = (s1, Some pd) ->
  (forall it, it ∈ items s1 <-> it ∈ items s /\ id it <> itemId) /\
  sublist (items s1) (items s) /\
  (uniqueIds (items s) -> (exists it, it ∈ items s /\ id it = itemId) ->
     S (length (items s1)) = length (items s)) /\
  request_of p pd = deleteTodoListItem (listId p) itemId.
Proof.
  unfold handleDeleteItem.
  destruct (_ || _); [done|].
  intros [= <- <-]. cbn. split; [|split; [|split]].
  - intros it. rewrite !list_elem_of_In, filter_In, negb_true_iff.
    by rewrite seq_neq.
  - generalize (items s). intros l.
    induction l as [|a l IH]; cbn; [done|].
    destruct (negb _); by constructor.
  - apply filter_length_unique.
  - done.
Qed.

Lemma delete_removes_exactly_witness :
  let p := exProps vanilla in
  let s := exState [exItem "1" "a" false; exItem "2" "b" true] in
  S (length (items (handleDeleteItem "2" s).1)) = length (items s).
Proof.
  intros p s.
  destruct (delete_removes_exactly p "2" s (handleDeleteItem "2" s).1
              (AwaitDelete "2" (items s)) eq_refl) as (_ & _ & H & _).
  apply H.
  - unfold uniqueIds. cbn. apply NoDup_cons. split; [|apply NoDup_singleton].
    intros Hin. by apply list_elem_of_singleton in Hin.
  - exists (exItem "2" "b" true). split; [|done]. right. by left.
Defined.

(** ** Starting the bulk operation *)

Lemma filter_split_length {A} (f : A -> bool) (l : list A) :
  (length (List.filter f l) + length (List.filter (fun x => negb (f x)) l)
   = length l)%nat.
Proof.
  induction l as [|a l IH]; cbn; [done|].
  destruct (f a); cbn; lia.
Qed.

Lemma stopPolling_isCompletingAll s :
  isCompletingAll (stopPolling s) = isCompletingAll s.
Proof. unfold stopPolling. by destruct (pollingIntervalRef s). Qed.

(** X11. When "Complete All" goes ahead the operation is running, the
    error is cleared and the items are untouched.  In websocket mode the
    progress starts at (number of completed items, number of items), with
    the first strictly below the second; in vanilla mode no progress is
    set and any polling timer is cancelled.  The request is the trigger of
    the mode. *)
Theorem completeAll_start (p : Props) (s s1 : State) (pd : Pending) :
  handleCompleteAll p s = (s1, Some pd) ->
  isCompletingAll s1 = true /\ error s1 = None /\ items s1 = items s /\
  match mode p with
  | websocket =>
      exists c,
        completionProgress s1 = Some (Progress.mk c (Z.of_nat (length (items s)))) /\
        c = Z.of_nat (length (List.filter completed (items s))) /\
        0 <= c < Z.of_nat (length (items s)) /\
        request_of p pd = completeAllItemsSignalR (listId p)
  | vanilla =>
      completionProgress s1 = completionProgress s /\
      pollingIntervalRef s1 = None /\
      (timersTracked s -> intervals s1 = []) /\
      request_of p pd = completeAllItems (listId p)
  end.
Proof.
  unfold handleCompleteAll.
  destruct (_ || _); [done|].
  pose proof (filter_split_length completed (items s)) as L.
  destruct (List.filter (fun item => negb (completed item)) (items s)) as [|x l] eqn:E;
    [done|].
  cbn [length Nat.eqb] in *.
  destruct (mode p) eqn:Hm; intros [= <- <-]; cbn.
  - rewrite stopPolling_items, stopPolling_error, stopPolling_progress, Hm.
    rewrite stopPolling_ref, stopPolling_isCompletingAll.
    repeat split.
    intros T. apply stopPolling_stops. auto with tracked.
  - repeat split. eexists. split; [reflexivity|]. rewrite Hm. repeat split; lia.
Qed.

Lemma completeAll_start_witness :
  let p := exProps websocket in
  let s := exState [exItem "1" "a" true; exItem "2" "b" false; exItem "3" "c" false] in
  completionProgress (handleCompleteAll p s).1 = Some (Progress.mk 1 3).
Proof.
  intros p s.
  destruct (completeAll_start p s (handleCompleteAll p s).1 AwaitCompleteAll eq_refl)
    as (_ & _ & _ & c & Hc & -> & _).
  exact Hc.
Defined.

(** ** Mock data *)

(** X12. Every way the mock-data flow can end resets [isMocking]: the
    handler sets the flag and awaits [createMockData]; if that fails, or if
    the refetch that follows fails, the flag is reset and the status is the
    mock-data error (replacing the fetch error); if the refetch succeeds,
    the flag and the loading indicator are reset, the fetched items are
    shown and the error is cleared. *)
Theorem mock_flow_releases_flag (p : Props) (s : State) :
  (forall s1 pd, handleMockData p s = (s1, Some pd) ->
     pd = AwaitMock /\ isMocking s1 = true /\ items s1 = items s) /\
  (let r := resume p AwaitMock None s in
   r.2 = None /\ isMocking r.1 = false /\ items r.1 = items s /\
   error r.1 = Some "Failed to generate mock data.") /\
  (let r := resume p AwaitMock (Some tt) s in
   r.2 = Some (AwaitFetch byMock) /\ isMocking r.1 = isMocking s /\
   loading r.1 = true) /\
  (forall data,
     let r := resume p (AwaitFetch byMock) (Some data) s in
     r.2 = None /\ isMocking r.1 = false /\ loading r.1 = false /\
     items r.1 = data /\ error r.1 = None) /\
  (let r := resume p (AwaitFetch byMock) None s in
   r.2 = None /\ isMocking r.1 = false /\ loading r.1 = false /\
   items r.1 = items s /\ error r.1 = Some "Failed to generate mock data.").
Proof.
  repeat split.
  - revert H. unfold handleMockData. destruct (_ || _); [done|]. by intros [= <- <-].
  - revert H. unfold handleMockData. destruct (_ || _); [done|].
    intros [= <- <-]. cbn. destruct (isVanilla p); [|done].
    unfold stopPolling. by destruct (pollingIntervalRef _).
  - revert H. unfold handleMockData. destruct (_ || _); [done|].
    intros [= <- <-]. destruct (isVanilla p); [|done]. by rewrite stopPolling_items.
  - cbn. unfold fetchItems. cbn. destruct (isVanilla p); cbn; [|done].
    unfold stopPolling. by destruct (pollingIntervalRef _).
  - cbn. unfold fetchItems. cbn. destruct (isVanilla p); cbn; [|done].
    unfold stopPolling. by destruct (pollingIntervalRef _).
  - cbn. unfold fetchItems_ok. by rewrite andb_false_r.
  - cbn. unfold fetchItems_fail. cbn. destruct (isVanilla p); cbn; [|done].
    by rewrite stopPolling_items.
Qed.

(** ** The push handler *)

Lemma markCompleted_pointwise (j : string) (its : list TodoListItem) :
  length (markCompleted j its) = length its /\
  forall k it, its !! k = Some it ->
    markCompleted j its !! k = Some it \/
    (completed it = false /\ id it = j /\
     markCompleted j its !! k = Some (withCompleted it true)).
Proof.
  unfold markCompleted.
  destruct (findIndex _ its) as [i|] eqn:F; [|by split; auto].
  apply findIndex_Some in F as (x & Hx & Fx & _). apply seq_eq in Fx.
  rewrite Hx. destruct (completed x) eqn:C; [by split; auto|].
  split; [apply length_insert|].
  intros k it Hk. destruct (decide (k = i)) as [->|Hne].
  - right. rewrite Hx in Hk. injection Hk as <-. repeat split; [done..|].
    apply list_lookup_insert_eq. by eapply lookup_lt_Some.
  - left. by rewrite list_lookup_insert_ne.
Qed.

(** The handler of a progress event alone, before the render. *)
Lemma receive_fields (p : Props) (e : ProgressEvent) (s : State) :
  let s' := receive p e s in
  (isCompletingAll s' = true -> isCompletingAll s = true) /\
  length (items s') = length (items s) /\
  (forall k it, items s !! k = Some it ->
     items s' !! k = Some it \/
     (completed it = false /\ items s' !! k = Some (withCompleted it true))) /\
  isMocking s' = isMocking s /\ loading s' = loading s /\
  newItemDesc s' = newItemDesc s /\ editingItemId s' = editingItemId s /\
  editingItemDesc s' = editingItemDesc s /\ error s' = error s /\
  intervals s' = intervals s /\ pollingIntervalRef s' = pollingIntervalRef s.
Proof.
  cbn zeta. unfold receive, ReceiveTodoCompletionUpdate.
  destruct (listIdMatches p (updatedListId e)); [|by repeat split; auto].
  assert (forall j, length (markCompleted j (items s)) = length (items s) /\
            forall k it, items s !! k = Some it ->
              markCompleted j (items s) !! k = Some it \/
              (completed it = false /\
               markCompleted j (items s) !! k = Some (withCompleted it true))) as M.
  { intros j. destruct (markCompleted_pointwise j (items s)) as [L P]. split; [done|].
    intros k it Hk. destruct (P k it Hk) as [|(? & _ & ?)]; auto. }
  destruct (justCompletedItemId e) as [j|]; [destruct (truthy j)|];
    destruct (_ && _); cbn; repeat split; auto; try apply M; try done.
Qed.

Lemma mock_flow_releases_flag_witness :
  let p := exProps vanilla in
  let s := exState [] in
  isMocking (handleMockData p s).1 = true /\
  isMocking (resume p AwaitMock None (handleMockData p s).1).1 = false.
Proof.
  intros p s.
  destruct (mock_flow_releases_flag p s) as (H1 & _).
  destruct (H1 _ _ eq_refl) as (_ & Hm & _).
  destruct (mock_flow_releases_flag p (handleMockData p s).1) as (_ & (_ & H2 & _) & _).
  split; [exact Hm | exact H2].
Defined.

(** X13. In websocket mode, a progress event and the render that follows
    it.  The event can end a bulk operation but never starts one, and it
    can complete an item but never anything else: the collection keeps
    its length and order, each position holds the same item or the same
    item with [completed] set, and the busy flag of mock data, the drafts
    and the timers are left alone.  The loading flag and the error are
    left alone as well, unless the event ended the bulk operation: then
    the render re-runs the fetch effect, which clears the error and
    issues a fetch of the items; the loading flag is set by it. *)
Theorem progress_event_frame (p : Props) (e : ProgressEvent) (s : State) :
  mode p = websocket ->
  let s1 := receive p e s in
  let r := commit p s s1 in
  (isCompletingAll r.1 = true -> isCompletingAll s = true) /\
  length (items r.1) = length (items s) /\
  (forall k it, items s !! k = Some it ->
     items r.1 !! k = Some it \/
     (completed it = false /\ items r.1 !! k = Some (withCompleted it true))) /\
  isMocking r.1 = isMocking s /\
  newItemDesc r.1 = newItemDesc s /\ editingItemId r.1 = editingItemId s /\
  editingItemDesc r.1 = editingItemDesc s /\
  intervals r.1 = intervals s /\ pollingIntervalRef r.1 = pollingIntervalRef s /\
  if isCompletingAll s && negb (isCompletingAll s1)
  then loading r.1 = true /\ error r.1 = None /\ r.2 = Some (AwaitFetch byEffect)
  else loading r.1 = loading s /\ error r.1 = error s /\ r.2 = None.
Proof.
  intros Hm. cbn zeta.
  destruct (receive_fields p e s)
    as (F & L & P & M & Lo & N & Ei & Ed & Er & I & R).
  destruct (isCompletingAll s && negb (isCompletingAll (receive p e s))) eqn:B.
  - apply andb_true_iff in B as [B1 B2]. apply negb_true_iff in B2.
    rewrite commit_flip by congruence.
    destruct (fetchEffect_spec p (receive p e s))
      as (E1 & E2 & E3 & E4 & E5 & E6 & _ & E8 & E9 & E10 & E11).
    rewrite Hm in E11. destruct E11 as [E11 E12]. rewrite B2 in E3.
    destruct (fetchEffect p (receive p e s)) as [s2 o2]. cbn in *.
    rewrite E4, E5, E6, E8, E9, E10, E11, E12.
    repeat split; auto.
  - rewrite commit_same.
    + cbn. repeat split; auto.
    + destruct (isCompletingAll s) eqn:C, (isCompletingAll (receive p e s)) eqn:C';
        try done. discriminate (F eq_refl).
Qed.

Lemma progress_event_frame_witness :
  let p := exProps websocket in
  let s := (handleCompleteAll p (exState [exItem "1" "a" false])).1 in
  let e := mkEvent (lidNumber 5) (Some "1") 1 1 in
  let r := commit p s (receive p e s) in
  isCompletingAll s = true /\
  items r.1 = [exItem "1" "a" true] /\ isCompletingAll r.1 = false /\
  loading r.1 = true /\ error r.1 = None /\ r.2 = Some (AwaitFetch byEffect).
Proof.
  intros p s e r. split; [reflexivity|].
  destruct (progress_event_frame p e s eq_refl)
    as (_ & _ & _ & _ & _ & _ & _ & _ & _ & H).
  change (isCompletingAll s && negb (isCompletingAll (receive p e s))) with true in H.
  destruct H as (H1 & H2 & H3).
  by repeat split.
Defined.

(** ** The list-id filter of the push handler *)

Lemma trimStart_solid s : noWhiteSpace s = true -> trimStart s = s.
Proof.
  destruct s as [|c r]; cbn; [done|].
  intros H. apply andb_true_iff in H as [H _].
  by apply negb_true_iff in H as ->.
Qed.

Lemma trimEnd_solid s : noWhiteSpace s = true -> trimEnd s = s.
Proof.
  induction s as [|c r IH]; cbn; [done|].
  intros H. apply andb_true_iff in H as [Hc Hr].
  rewrite (IH Hr). apply negb_true_iff in Hc as ->. by destruct r.
Qed.

Lemma trim_solid s : noWhiteSpace s = true -> trim s = s.
Proof.
  intros H. unfold trim. rewrite (trimStart_solid s H). by apply trimEnd_solid.
Qed.

Lemma string_of_uint_solid d : noWhiteSpace (NilEmpty.string_of_uint d) = true.
Proof. induction d; cbn; done. Qed.

Lemma toString_solid n : noWhiteSpace (toString n) = true /\ truthy (toString n) = true.
Proof.
  unfold toString, NilZero.string_of_int, NilZero.string_of_uint.
  destruct (Z.to_int n) as [d|d]; split;
    try (destruct d; cbn; try apply string_of_uint_solid; done).
Qed.

(** X14. The push handler compares list ids as trimmed strings: an event
    whose list id is the safe integer [n] is accepted by the view of the
    list whose id is the decimal string of [n], also when that id is
    padded with white space; [null], [undefined] and a blank id are never
    accepted; and an event that is not accepted leaves the state exactly
    as it was. *)
Theorem list_id_filter (p : Props) :
  (forall n, isSafeInteger n = true -> trim (listId p) = toString n ->
     listIdMatches p (lidNumber n) = true) /\
  listIdMatches p lidNull = false /\
  listIdMatches p lidUndefined = false /\
  (forall v, truthy (trim v) = false -> listIdMatches p (lidString v) = false) /\
  (forall e s, listIdMatches p (updatedListId e) = false -> receive p e s = s).
Proof.
  repeat split.
  - intros n _ H. unfold listIdMatches. cbn.
    destruct (toString_solid n) as [Hs Ht].
    rewrite (trim_solid _ Hs), H, Ht, seq_refl. done.
  - intros v H. unfold listIdMatches. cbn. by rewrite H.
  - intros e s H. unfold receive, ReceiveTodoCompletionUpdate. by rewrite H.
Qed.

Lemma list_id_filter_witness :
  isSafeInteger 42 = true /\
  listIdMatches (mkProps " 42 " websocket) (lidNumber 42) = true /\
  listIdMatches (mkProps " 42 " websocket) (lidString "  ") = false.
Proof.
  destruct (list_id_filter (mkProps " 42 " websocket)) as (H & _ & _ & Hv & _).
  split; [reflexivity|]. split; [by apply H|by apply Hv].
Defined.

(** ** [fetchApi] and the handlers it feeds *)

(** X15. [fetchApi] resolves only for a response whose status is the
    expected one or in 200..299.  When the status is the expected one and
    is 202 or 204 it resolves with [null] without reading the body; in
    every other case the value it resolves with is the parsed body, so it
    is [null] only when the body is the JSON [null]. *)
Theorem fetchApi_resolved {T} (response : option (Api.Response T))
    (expectedStatus : Z) (v : option T) :
  Api.fetchApi response expectedStatus = Api.Resolved v ->
  exists r, response = Some r /\
    (Api.status r = expectedStatus \/ Api.ok r = true) /\
    ((Api.status r = expectedStatus /\
      (expectedStatus = 202 \/ expectedStatus = 204) /\ v = None) \/
     Api.json r = Some v) /\
    (expectedStatus = 200 -> Api.json r = Some v).
Proof.
  unfold Api.fetchApi, Api.returnJson.
  destruct response as [r|]; [|done].
  destruct (Api.status r =? expectedStatus) eqn:E.
  - apply Z.eqb_eq in E.
    destruct (_ || _) eqn:N.
    + intros [= <-]. exists r. split; [done|]. split; [auto|].
      apply orb_true_iff in N as [N|N]; apply Z.eqb_eq in N.
      * split; [left; repeat split; auto; right; lia|lia].
      * split; [left; repeat split; auto; left; lia|lia].
    + destruct (Api.json r) as [x|] eqn:J; [|done].
      intros [= <-]. exists r. repeat split; auto.
  - destruct (Api.ok r) eqn:O; cbn; [|done].
    destruct (Api.json r) as [x|] eqn:J; [|done].
    intros [= <-]. exists r. repeat split; auto.
Qed.

Lemma fetchApi_resolved_witness :
  exists r : Api.Response (list TodoListItem),
    Some (Api.mkResponse 200 "null" (Some None)) = Some r /\
    Api.json r = Some None.
Proof.
  destruct (fetchApi_resolved (Some (Api.mkResponse 200 "null" (Some None)))
              200 (@None (list TodoListItem)) eq_refl) as (r & H1 & _ & _ & H2).
  exists r. split; [exact H1 | by apply H2].
Defined.

Lemma expectedStatusOf_ok rq :
  (200 <=? expectedStatusOf rq) && (expectedStatusOf rq <=? 299) = true.
Proof. by destruct rq. Qed.

Lemma fetchApi_error_status {T} (r : Api.Response T) (e : Z) :
  (200 <=? e) && (e <=? 299) = true -> Api.ok r = false ->
  exists msg, Api.fetchApi (Some r) e = Api.Rejected (Some msg).
Proof.
  intros He Ho. unfold Api.fetchApi.
  destruct (Api.status r =? e) eqn:E.
  - apply Z.eqb_eq in E. unfold Api.ok in Ho. rewrite E, He in Ho. done.
  - rewrite Ho. cbn. eauto.
Qed.

Lemma deliver_rejected pd msg :
  deliver pd (Api.Rejected msg) = Some None.
Proof. by destruct pd. Qed.

(** X16. For every remote call of the component, a network failure or a
    response whose status is outside 200..299 runs the failure branch of
    the suspended handler. *)
Theorem error_response_runs_failure_path (p : Props) (pd : Pending)
    (response : option (Api.Response (ResponseBody pd))) (s : State) :
  (forall r, response = Some r -> Api.ok r = false) ->
  respond p pd response s = Some (resume p pd None s).
Proof.
  intros H. unfold respond.
  destruct response as [r|]; [|by cbn; rewrite deliver_rejected].
  destruct (fetchApi_error_status r (expectedStatusOf (request_of p pd))
              (expectedStatusOf_ok _) (H r eq_refl)) as [msg ->].
  by rewrite deliver_rejected.
Qed.

Lemma error_response_runs_failure_path_witness :
  let p := exProps vanilla in
  let a := exItem "1" "a" false in
  let s := (handleDeleteItem "1" (exState [a])).1 in
  (respond p (AwaitDelete "1" [a]) (Some (Api.mkResponse 500 "boom" None)) s
   = Some (resume p (AwaitDelete "1" [a]) None s)) /\
  items (resume p (AwaitDelete "1" [a]) None s).1 = [a].
Proof.
  intros p a s. split; [|reflexivity].
  apply error_response_runs_failure_path. by intros r [= <-].
Defined.

(** X18. The trigger of the bulk operation is accepted on status 202
    whatever the body; a fetch of the items that answers 200 with a body
    that parses hands the parsed items to [fetchItems]; and a response
    with a 2xx status that is not the expected one and whose body does
    not parse (such as an empty 204 where 200 is expected) runs the
    failure branch. *)
Theorem response_reaches_handler (p : Props) (s : State) :
  (forall r, Api.status r = 202 ->
     respond p AwaitCompleteAll (Some r) s
     = Some (resume p AwaitCompleteAll (Some tt) s)) /\
  (forall caller r data, Api.status r = 200 -> Api.json r = Some (Some data) ->
     respond p (AwaitFetch caller) (Some r) s
     = Some (resume p (AwaitFetch caller) (Some data) s)) /\
  (forall pd (r : Api.Response (ResponseBody pd)),
     Api.status r <> expectedStatusOf (request_of p pd) ->
     Api.json r = None ->
     respond p pd (Some r) s = Some (resume p pd None s)).
Proof.
  split; [|split].
  - intros [st tx js] H. cbn in H. subst st. unfold respond, Api.fetchApi.
    assert (expectedStatusOf (request_of p AwaitCompleteAll) = 202) as ->
      by (cbn; by destruct (mode p)).
    done.
  - intros caller [st tx js] data H J. cbn in H, J. subst st js. done.
  - intros pd [st tx js] H J. cbn in H, J. subst js.
    unfold respond, Api.fetchApi, Api.returnJson. cbn.
    apply Z.eqb_neq in H. rewrite H.
    destruct (negb _); by rewrite deliver_rejected.
Qed.

Lemma response_reaches_handler_witness :
  let p := exProps vanilla in
  let a := exItem "1" "a" false in
  let s := (handleDeleteItem "1" (exState [a])).1 in
  respond p (AwaitDelete "1" [a]) (Some (Api.mkResponse 204 "" None)) s
  = Some (resume p (AwaitDelete "1" [a]) None s).
Proof.
  intros p a s.
  destruct (response_reaches_handler p s) as (_ & _ & H).
  by apply (H (AwaitDelete "1" [a])).
Defined.

(** ** The list of lists *)

(** X19. The list of lists is updated pessimistically: no user action
    and no failed call changes [lists]; only the success branches do.  A
    blank name makes [handleCreateList] return at once, and a declined
    confirmation makes [handleDeleteList] issue no call. *)
Theorem lists_change_only_on_success :
  (forall a s, Lists.lists (Lists.act a s).1 = Lists.lists s) /\
  (forall pd s, Lists.lists (Lists.resume pd None s) = Lists.lists s) /\
  (forall s, truthy (trim (Lists.newListName s)) = false ->
     Lists.handleCreateList s = (s, None)) /\
  (forall id0 s, (Lists.handleDeleteList id0 false s).2 = None).
Proof.
  repeat split.
  - intros a s. destruct a; cbn; try done.
    + unfold Lists.handleCreateList. by destruct (negb _).
    + unfold Lists.handleDeleteList. by destruct (negb _).
  - intros pd s. by destruct pd.
  - intros s H. unfold Lists.handleCreateList. by rewrite H.
Qed.

Lemma lists_change_only_on_success_witness :
  Lists.handleCreateList (Lists.setNewListName "  " Lists.initialState)
  = (Lists.setNewListName "  " Lists.initialState, None).
Proof.
  destruct lists_change_only_on_success as (_ & _ & H & _).
  by apply H.
Defined.

(** ** The application shell *)

Lemma body_no_selection m s :
  App.selectedListId s = None ->
  forall l n pr, App.body m s <> App.Detail l n pr.
Proof.
  intros H l n pr. unfold App.body. rewrite H. by destruct (App.isLoadingLists s).
Qed.

Lemma render_no_selection s :
  App.selectedListId s = None ->
  forall l n pr, App.render s <> App.Detail l n pr.
Proof.
  intros H l n pr. unfold App.render.
  destruct (App.currentMode s); [done|by apply body_no_selection..].
Qed.

Lemma render_detail_inv s l n pr :
  App.render s = App.Detail l n pr ->
  App.isLoadingLists s = false /\ App.selectedListId s = Some l /\ truthy l = true /\
  n = App.selectedListName s /\
  exists m, pr = mkProps l m /\
    App.currentMode s = match m with vanilla => App.appVanilla
                                   | websocket => App.appWebsocket end.
Proof.
  unfold App.render, App.body.
  destruct (App.currentMode s); [done|..];
    destruct (App.isLoadingLists s); try done;
    destruct (App.selectedListId s) as [x|]; try done;
    destruct (truthy x) eqn:Tx; try done;
    intros [= <- <- <-]; repeat split; try done; eexists; by split.
Qed.

(** X20. The props of a mounted detail view never change under it:
    choosing a mode and going back always leave no detail view rendered,
    and any step of the shell that goes from a rendered detail view to a
    rendered detail view keeps its list id, list name and mode. *)
Theorem detail_props_stable (a : App.Action) (s : App.State) :
  (forall m l n pr, App.render (App.selectMode m s) <> App.Detail l n pr) /\
  (forall l n pr, App.render (App.handleBackToLists s) <> App.Detail l n pr) /\
  (App.enabled a s ->
   forall l n pr l' n' pr',
     App.render s = App.Detail l n pr ->
     App.render (App.act a s) = App.Detail l' n' pr' ->
     l' = l /\ n' = n /\ pr' = pr).
Proof.
  split; [|split].
  - intros m. by apply render_no_selection.
  - by apply render_no_selection.
  - intros He l n pr l' n' pr' Hs Hs'.
    destruct a; cbn in He, Hs'.
    + by apply render_no_selection in Hs'.
    + destruct He as [m Hm]. congruence.
    + by apply render_no_selection in Hs'.
    + apply render_detail_inv in Hs as (_ & Hsel & Ht & _ & m & _ & Hmode).
      unfold App.effectFetches, App.hasSelection in He.
      rewrite Hsel, Ht, Hmode in He. by destruct m.
    + apply render_detail_inv in Hs as (Hl & Hsel & Ht & Hn & m & Hp & Hmode).
      apply render_detail_inv in Hs' as (_ & Hsel' & _ & Hn' & m' & Hp' & Hmode').
      cbn in *. rewrite Hsel in Hsel'. injection Hsel' as <-.
      rewrite Hmode in Hmode'. subst.
      repeat split. f_equal. by destruct m, m'.
Qed.

Lemma detail_props_stable_witness :
  let s := App.act (App.clickList "5")
             (App.act (App.clickMode App.appVanilla) App.initialState) in
  App.render s = App.Detail "5" "List" (mkProps "5" vanilla) /\
  App.render (App.act (App.listsSettled None) s)
    = App.Detail "5" "List" (mkProps "5" vanilla).
Proof.
  intros s. split; [reflexivity|].
  destruct (detail_props_stable (App.listsSettled None) s) as (_ & _ & H).
  destruct (App.render (App.act (App.listsSettled None) s)) as [| |l' n' pr'|] eqn:E;
    try discriminate E.
  destruct (H I "5" "List" (mkProps "5" vanilla) l' n' pr' eq_refl eq_refl)
    as (-> & -> & ->).
  reflexivity.
Defined.

Lemma truthy_false (v : string) : truthy v = false -> v = "".
Proof. by destruct v. Qed.

(** X21. Choosing a list in the list view, and the render that follows.
    A non-empty id mounts the detail view with that list id, the mode of
    the shell, and the name of the first known list with that id ("List"
    when there is none).  The empty id mounts nothing: if no id was
    selected before, the selection changes from [null] to the empty
    string, the effect runs again and fetches the lists, and the loading
    line is shown; if the empty id was selected already, the list view
    stays. *)
Theorem select_list_mounts_detail (listId0 : string) (m : Mode) (s : App.State) :
  App.render s = App.ListList m ->
  App.render (App.commit s (App.handleSelectList listId0 s)) =
    if truthy listId0
    then App.Detail listId0
           (match find (fun l => seq (Lists.id l) listId0) (App.allLists s) with
            | Some l => Lists.name l
            | None => "List"
            end)
           (mkProps listId0 m)
    else match App.selectedListId s with
         | None => App.LoadingLists
         | Some _ => App.ListList m
         end.
Proof.
  unfold App.render, App.body, App.commit, App.sameDeps, App.effectFetches,
    App.hasSelection, App.handleSelectList, App.fetchInitialLists.
  destruct s as [sel nm al ld cm]. cbn.
  destruct cm; [done|..]; destruct ld; try done;
    (destruct sel as [x|];
     [destruct (truthy x) eqn:Tx; try done;
      apply truthy_false in Tx as ->|]);
    intros [= <-]; destruct (truthy listId0) eqn:T; cbn; rewrite ?T; cbn;
    try reflexivity;
    try (apply truthy_false in T as ->; reflexivity);
    destruct listId0; try discriminate T; reflexivity.
Qed.

Lemma select_list_mounts_detail_witness :
  let s := App.act (App.listsSettled (Some [Lists.mkList "5" "Groceries"]))
             (App.act (App.clickMode App.appWebsocket) App.initialState) in
  App.render (App.commit s (App.handleSelectList "5" s))
    = App.Detail "5" "Groceries" (mkProps "5" websocket) /\
  App.render (App.commit s (App.handleSelectList "" s)) = App.LoadingLists.
Proof.
  intros s. split.
  - by apply (select_list_mounts_detail "5" websocket s).
  - by apply (select_list_mounts_detail "" websocket s).
Defined.

(** ** More on the optimistic handlers *)

Lemma to_int_not_nil z : Z.to_int z <> Decimal.Pos Decimal.Nil /\
                         Z.to_int z <> Decimal.Neg Decimal.Nil.
Proof.
  destruct z as [|q|q]; cbn; split; try done;
    intros [= H]; by apply Unsigned.to_uint_nonnil in H.
Qed.

Lemma toString_inj a b : toString a = toString b -> a = b.
Proof.
  unfold toString. intros H.
  destruct (to_int_not_nil a) as [A1 A2], (to_int_not_nil b) as [B1 B2].
  pose proof (NilZero.isi _ A1 A2) as Ia.
  pose proof (NilZero.isi _ B1 B2) as Ib.
  rewrite H in Ia. rewrite Ia in Ib. injection Ib as Ib.
  by apply DecimalZ.to_int_inj.
Qed.

Lemma tempIdAt_inj a b : tempIdAt a = tempIdAt b -> a = b.
Proof. unfold tempIdAt. cbn. intros [= H]. by apply toString_inj. Qed.

Lemma handleAddItem_goes (p : Props) (now : Z) (s : State) (pd : Pending) :
  (handleAddItem p now s).2 = Some pd ->
  handleAddItem p now s =
    (setNewItemDesc ""
       (setItems (items s ++ [newItemOptimistic p (tempIdAt now) (newItemDesc s)])
          (setError None s)),
     Some (AwaitAdd (tempIdAt now) (newItemDesc s))).
Proof.
  unfold handleAddItem.
  by destruct (negb (truthy (trim (newItemDesc s))) || isCompletingAll s || isMocking s).
Qed.

(** X22. Provisional ids taken at different clock readings differ, so two
    creations in flight do not disturb each other: when the first fails,
    its roll-back removes its own provisional item and keeps the one of
    the second. *)
Theorem failed_create_keeps_later_create (p : Props) (now1 now2 : Z)
    (d : string) (s : State) :
  now1 <> now2 ->
  (forall it, it ∈ items s -> id it <> tempIdAt now1) ->
  let first := handleAddItem p now1 s in
  let second := handleAddItem p now2 (setNewItemDesc d first.1) in
  first.2 = Some (AwaitAdd (tempIdAt now1) (newItemDesc s)) ->
  second.2 = Some (AwaitAdd (tempIdAt now2) d) ->
  tempIdAt now1 <> tempIdAt now2 /\
  items (resume p (AwaitAdd (tempIdAt now1) (newItemDesc s)) None second.1).1
  = (items s ++ [newItemOptimistic p (tempIdAt now2) d])%list.
Proof.
  intros Hne Hfresh. cbn zeta. intros H1 H2.
  assert (tempIdAt now1 <> tempIdAt now2) as Hid
    by (intros H; by apply tempIdAt_inj in H).
  split; [done|].
  rewrite (handleAddItem_goes _ _ _ _ H2).
  rewrite (handleAddItem_goes _ _ _ _ H1).
  cbn -[List.filter app tempIdAt].
  rewrite List.filter_app.
  rewrite (filter_out_appended (tempIdAt now1)); [|done..].
  cbn -[tempIdAt]. by rewrite (proj2 (seq_neq _ _) (not_eq_sym Hid)).
Qed.

Lemma failed_create_keeps_later_create_witness :
  let p := exProps vanilla in
  let s := setNewItemDesc "a" (exState []) in
  items (resume p (AwaitAdd (tempIdAt 1) "a") None
           (handleAddItem p 2 (setNewItemDesc "b" (handleAddItem p 1 s).1)).1).1
  = [newItemOptimistic p (tempIdAt 2) "b"].
Proof.
  intros p s.
  apply (failed_create_keeps_later_create p 1 2 "b" s); try done.
  intros it Hit. by apply elem_of_nil in Hit.
Defined.

Lemma find_unique (item : TodoListItem) (its : list TodoListItem) :
  item ∈ its -> uniqueIds its ->
  find (fun i => seq (id i) (id item)) its = Some item.
Proof.
  intros Hin ND.
  destruct (find (fun i => seq (id i) (id item)) its) as [cur|] eqn:F.
  - apply find_Some_elem in F as [Hc Hid]. apply seq_eq in Hid.
    f_equal. by apply (unique_id its).
  - exfalso. clear ND. induction its as [|a l IH]; [by apply elem_of_nil in Hin|].
    cbn in F. destruct (seq (id a) (id item)) eqn:E; [done|].
    apply elem_of_cons in Hin as [->|Hin]; [by rewrite seq_refl in E|auto].
Qed.

(** X23. Opening the editor on an item and saving without typing issues
    no request and changes no item: [startEditing] takes the item's
    description as the draft, and [handleUpdateItemDesc] cancels when the
    draft equals the description.  (For an open item of the collection,
    with unique ids, while nothing else is running.) *)
Theorem edit_then_save_unchanged (item : TodoListItem) (s : State) :
  canPerformActions s = true -> completed item = false ->
  item ∈ items s -> uniqueIds (items s) ->
  let s1 := startEditing item s in
  editingItemId s1 = Some (id item) /\ editingItemDesc s1 = description item /\
  handleUpdateItemDesc (id item) s1 = (cancelEditing s, None).
Proof.
  intros Hcan Hc Hin ND. cbn zeta. unfold startEditing.
  rewrite <- (negb_involutive (canPerformActions s)), not_canPerformActions in Hcan.
  apply negb_true_iff in Hcan. rewrite Hcan, Hc. cbn. repeat split.
  unfold handleUpdateItemDesc. cbn.
  rewrite (find_unique item (items s) Hin ND), Hcan, seq_refl. cbn.
  by rewrite orb_true_r.
Qed.

Lemma edit_then_save_unchanged_witness :
  let a := exItem "1" "a" false in
  let s := exState [a] in
  handleUpdateItemDesc "1" (startEditing a s) = (cancelEditing s, None).
Proof.
  intros a s.
  destruct (edit_then_save_unchanged a s) as (_ & _ & H); try done.
  - by left.
  - unfold uniqueIds. cbn. apply NoDup_singleton.
Defined.

(** X24. A failed fetch that was not made by the polling timer (the one
    of the fetch effect, or the one that follows mock data), and the
    render that follows.  The items are kept, and the mock flow releases
    its flag.  In websocket mode the error of the caller is set, the
    loading flag is cleared, and the bulk flag, the progress and the
    timers stay as they are.  In vanilla mode the bulk flag is reset, the
    progress is cleared and the timer reference is empty; if no bulk
    operation was running, the error of the caller is set and the loading
    flag is cleared; if one was running, the render re-runs the fetch
    effect, which clears the error, sets the loading flag and issues a
    new fetch of the items. *)
Theorem manual_fetch_failure (p : Props) (s : State) (caller : FetchCaller) :
  calledDuringPolling caller = false ->
  let r := settle p (AwaitFetch caller) None s in
  let msg := match caller with
             | byMock => "Failed to generate mock data."
             | _ => "Failed to fetch list items."
             end in
  items r.1 = items s /\
  (caller = byMock -> isMocking r.1 = false) /\
  match mode p with
  | websocket =>
      r.2 = [] /\ loading r.1 = false /\ error r.1 = Some msg /\
      isCompletingAll r.1 = isCompletingAll s /\
      completionProgress r.1 = completionProgress s /\
      pollingIntervalRef r.1 = pollingIntervalRef s /\
      intervals r.1 = intervals s
  | vanilla =>
      isCompletingAll r.1 = false /\ completionProgress r.1 = None /\
      pollingIntervalRef r.1 = None /\
      if isCompletingAll s
      then r.2 = [AwaitFetch byEffect] /\ loading r.1 = true /\ error r.1 = None
      else r.2 = [] /\ loading r.1 = false /\ error r.1 = Some msg
  end.
Proof.
  intros Hc. destruct p as [lid m].
  destruct s as [? ? ? ? mocking completing ? ? ? ref ? ?].
  destruct caller; try discriminate Hc;
    destruct m, completing, ref;
    unfold settle, turn, commit, fetchEffect, fetchItems, resume, fetchItems_fail,
      handleMockData_fail, stopPolling, isVanilla; cbn;
    repeat split; done.
Qed.

Lemma manual_fetch_failure_witness :
  let p := exProps vanilla in
  let s := (handleCompleteAll p (exState [exItem "1" "a" false])).1 in
  let r := settle p (AwaitFetch byEffect) None s in
  isCompletingAll s = true /\
  isCompletingAll r.1 = false /\ r.2 = [AwaitFetch byEffect] /\
  loading r.1 = true /\ error r.1 = None.
Proof.
  intros p s r. split; [reflexivity|].
  destruct (manual_fetch_failure p s byEffect eq_refl) as (_ & _ & H).
  change (mode p) with vanilla in H. cbn beta iota in H.
  destruct H as (H1 & _ & _ & H2).
  change (isCompletingAll s) with true in H2. destruct H2 as (H2 & H3 & H4).
  by repeat split.
Defined.
